(** * newsletter-rag: the ingestion pipeline, embedded and verified

    A shallow embedding of the two algorithmic components of the repository,

    - [newsletter_detector.py]: the classifier [NewsletterDetector]
      (three weighted scores, the acceptance rule, the batch filter);
    - [embeddings.py]: the segmenter [TextChunker]
      (sentence splitting, greedy windows with an overlap seed);

    followed by the properties of the specification stated against them.

    Modelling conventions.
    - A Python [str] is a Rocq [string]; every [ascii] stands for one code
      point below 256, so [len] is [String.length].  Text with code points
      from 256 upwards is outside the model.
    - A Python [float] score is an exact rational of [Q]; binary rounding is
      not modelled.  [min] and [max] of two arguments are [Qmin] and [Qmax],
      which pick their arguments exactly as Python does.
    - A Python [int] is a [Z]; list positions and lengths are [nat].
    - [try]/[except] blocks are kept: code that may raise lives in a small
      monad whose state (the local accumulators) survives an exception. *)

From Stdlib Require Import ZArith QArith Qminmax Bool List Ascii String Lia.
From Stdlib Require Import Permutation Sorted DecimalString.
Import ListNotations.

Open Scope string_scope.
Open Scope list_scope.

(* ================================================================== *)
(** * Part I: definitions *)
(* ================================================================== *)

(** ** Python string builtins used by the source *)

Module Py.

(** [str.isspace] on one character, for code points below 256:
    TAB..CR, FS..US, SPACE, NEL (0x85) and NBSP (0xA0). *)
Definition isspace (c : ascii) : bool :=
  let n := N_of_ascii c in
  (((9 <=? n) && (n <=? 13)) || ((28 <=? n) && (n <=? 32))
   || (n =? 133) || (n =? 160))%N.

(** [str.lower] on one character, for code points below 256. *)
Definition lower_char (c : ascii) : ascii :=
  let n := N_of_ascii c in
  if (((65 <=? n) && (n <=? 90))
      || ((192 <=? n) && (n <=? 222) && negb (n =? 215)))%N
  then ascii_of_N (n + 32) else c.

Fixpoint lower (s : string) : string :=
  match s with
  | EmptyString => EmptyString
  | String c s' => String (lower_char c) (lower s')
  end.

(** [len(s)] as a Python int. *)
Definition len (s : string) : Z := Z.of_nat (String.length s).

(** Truthiness of a string: [if s:]. *)
Definition truthy (s : string) : bool :=
  match s with EmptyString => false | String _ _ => true end.

Definition snoc (s : string) (c : ascii) : string := s ++ String c EmptyString.

(** [s.lstrip(chars)], [s.rstrip(chars)], [s.strip(chars)] with the set of
    stripped characters given as a predicate. *)
Fixpoint lstrip_with (p : ascii -> bool) (s : string) : string :=
  match s with
  | EmptyString => EmptyString
  | String c s' => if p c then lstrip_with p s' else s
  end.

Fixpoint rstrip_with (p : ascii -> bool) (s : string) : string :=
  match s with
  | EmptyString => EmptyString
  | String c s' =>
      let r := rstrip_with p s' in
      if negb (truthy r) && p c then EmptyString else String c r
  end.

Definition strip_with (p : ascii -> bool) (s : string) : string :=
  rstrip_with p (lstrip_with p s).

(** [s.strip()] *)
Definition strip (s : string) : string := strip_with isspace s.

(** [c in s] for a one-character [c]. *)
Fixpoint contains_char (c : ascii) (s : string) : bool :=
  match s with
  | EmptyString => false
  | String d s' => Ascii.eqb c d || contains_char c s'
  end.

(** [sub in s] *)
Fixpoint contains (sub s : string) : bool :=
  String.prefix sub s
  || match s with
     | EmptyString => false
     | String _ s' => contains sub s'
     end.

(** Splitting at every character that satisfies [p]: [s.split(c)] for a
    one-character separator, and [re.split] on a character class.  Empty
    pieces are kept, as Python keeps them. *)
Fixpoint split_at (p : ascii -> bool) (s : string) (cur : string) : list string :=
  match s with
  | EmptyString => [cur]
  | String c s' =>
      if p c then cur :: split_at p s' EmptyString
      else split_at p s' (snoc cur c)
  end.

Definition split_char (c : ascii) (s : string) : list string :=
  split_at (Ascii.eqb c) s EmptyString.

(** [s.split()] : the maximal runs of non-whitespace characters. *)
Fixpoint split_ws_from (s : string) (cur : string) : list string :=
  match s with
  | EmptyString => if truthy cur then [cur] else []
  | String c s' =>
      if isspace c
      then (if truthy cur then cur :: split_ws_from s' EmptyString
            else split_ws_from s' EmptyString)
      else split_ws_from s' (snoc cur c)
  end.

Definition split_ws (s : string) : list string := split_ws_from s EmptyString.

Definition LF : ascii := ascii_of_nat 10.

(** [s.split('\n\n')] *)
Fixpoint split_blank_line (s : string) (cur : string) : list string :=
  match s with
  | EmptyString => [cur]
  | String a s' =>
      match s' with
      | String b s'' =>
          if Ascii.eqb a LF && Ascii.eqb b LF
          then cur :: split_blank_line s'' EmptyString
          else split_blank_line s' (snoc cur a)
      | EmptyString => [snoc cur a]
      end
  end.

(** [s[:n]] for [n >= 0]. *)
Fixpoint take (n : nat) (s : string) : string :=
  match n, s with
  | S n', String c s' => String c (take n' s')
  | _, _ => EmptyString
  end.

Fixpoint drop (n : nat) (s : string) : string :=
  match n, s with
  | S n', String _ s' => drop n' s'
  | _, _ => s
  end.

(** [s[i:]] for any int [i]: a negative [i] counts from the end and is
    clipped at the start of the string; [s[-0:]] is [s[0:]], all of [s]. *)
Definition slice_from (i : Z) (s : string) : string :=
  if (i <? 0)%Z then drop (Z.to_nat (Z.max (len s + i) 0)) s
  else drop (Z.to_nat i) s.

(** [' '.join(l)] *)
Definition join_space (l : list string) : string := String.concat " " l.

(** [l[-2:]] *)
Definition last_two {A : Type} (l : list A) : list A :=
  skipn (List.length l - 2) l.

(** [str(i)] for a list position. *)
Definition str_of_nat (i : nat) : string :=
  NilZero.string_of_uint (Nat.to_uint i).

(** No character of [s] satisfies [p]. *)
Fixpoint free_of (p : ascii -> bool) (s : string) : bool :=
  match s with
  | EmptyString => true
  | String c s' => negb (p c) && free_of p s'
  end.

(** [x in l] for a set or list of strings. *)
Definition mem (x : string) (l : list string) : bool :=
  existsb (String.eqb x) l.

End Py.

(** ** The fragment of Python's [re] the source uses

    Patterns are parsed from their source text, so the tables of the
    detector below are the source's tables.  Supported: literals, the
    escapes [\s], [\d], [\b] and escaped punctuation, groups, [|], the
    postfix operators [*], [+], [?], [{n}], and bracketed sets of literal
    characters; every pattern of the source lies in this fragment.
    [re.search] is used by the source only as a test, so a pattern denotes
    the set of strings it matches. *)

Module Re.

(** A pattern character: a code point below 256, or a wider one, which no
    text of the model contains. *)
Inductive pchar : Type :=
| L (c : ascii)
| Wide (cp : N).

Definition pattern : Type := list pchar.

Fixpoint pat (s : string) : pattern :=
  match s with
  | EmptyString => []
  | String c s' => L c :: pat s'
  end.

Inductive regex : Type :=
| Eps
| Never
| Chr (c : ascii)
| AnyOf (cs : list ascii)
| Space
| Digit
| WordB
| Cat (r1 r2 : regex)
| Alt (r1 r2 : regex)
| Star (r : regex).

Definition in_range (lo hi : N) (c : ascii) : bool :=
  let n := N_of_ascii c in ((lo <=? n) && (n <=? hi))%N.

(** [\d] on text: the decimal digits; below 256 these are 0-9. *)
Definition isdecimal (c : ascii) : bool := in_range 48 57 c.

(** [\w] on text: [str.isalnum] or underscore, for code points below 256. *)
Definition isword (c : ascii) : bool :=
  let n := N_of_ascii c in
  (in_range 48 57 c || in_range 65 90 c || in_range 97 122 c || (n =? 95)
   || (n =? 170) || (n =? 178) || (n =? 179) || (n =? 181) || (n =? 185)
   || (n =? 186) || in_range 188 190 c
   || in_range 192 214 c || in_range 216 246 c || in_range 248 255 c)%N.

(** [\b]: exactly one of the two neighbours is a word character. *)
Definition at_boundary (prev : option ascii) (s : string) : bool :=
  xorb (match prev with Some c => isword c | None => false end)
       (match s with String c _ => isword c | EmptyString => false end).

Definition one (p : ascii -> bool) (s : string)
    (k : option ascii -> string -> bool) : bool :=
  match s with
  | String d s' => if p d then k (Some d) s' else false
  | EmptyString => false
  end.

(** [matches r prev s k]: some prefix of [s] matches [r] (the character
    before it being [prev]) and the continuation [k] accepts the rest.
    An iteration of a star has to consume a character, so the length of
    [s] bounds their number. *)
Fixpoint matches (r : regex) (prev : option ascii) (s : string)
    (k : option ascii -> string -> bool) {struct r} : bool :=
  match r with
  | Eps => k prev s
  | Never => false
  | Chr c => one (Ascii.eqb c) s k
  | AnyOf cs => one (fun d => existsb (Ascii.eqb d) cs) s k
  | Space => one Py.isspace s k
  | Digit => one isdecimal s k
  | WordB => if at_boundary prev s then k prev s else false
  | Cat r1 r2 => matches r1 prev s (fun p' s' => matches r2 p' s' k)
  | Alt r1 r2 => if matches r1 prev s k then true else matches r2 prev s k
  | Star a =>
      (fix loop (fuel : nat) (prev : option ascii) (s : string) {struct fuel} : bool :=
         if k prev s then true
         else match fuel with
              | O => false
              | S fuel' =>
                  matches a prev s
                    (fun p' s' =>
                       if (String.length s' <? String.length s)%nat
                       then loop fuel' p' s' else false)
              end) (String.length s) prev s
  end.

(** The pattern matches at the current position or at a later one. *)
Fixpoint search_from (r : regex) (prev : option ascii) (s : string) : bool :=
  if matches r prev s (fun _ _ => true) then true
  else match s with
       | String c s' => search_from r (Some c) s'
       | EmptyString => false
       end.

(** *** Parsing *)

Definition is_char (c : string) (p : pchar) : bool :=
  match p, c with
  | L a, String b EmptyString => Ascii.eqb a b
  | _, _ => false
  end.

Fixpoint repeat_re (n : nat) (r : regex) : regex :=
  match n with
  | O => Eps
  | S n' => Cat r (repeat_re n' r)
  end.

(** The digits of a [{n}] bound, up to the closing brace; [seen] tells
    that a digit was read. *)
Fixpoint parse_count (p : pattern) (acc : nat) (seen : bool)
    : option (nat * pattern) :=
  match p with
  | L c :: rest =>
      if Ascii.eqb c "}" then (if seen then Some (acc, rest) else None)
      else if isdecimal c
           then parse_count rest (10 * acc + (nat_of_ascii c - 48)) true
           else None
  | _ => None
  end.

(** One optional postfix operator after an atom. *)
Definition postfix (a : regex) (p : pattern) : option (regex * pattern) :=
  match p with
  | q :: rest =>
      if is_char "*" q then Some (Star a, rest)
      else if is_char "+" q then Some (Cat a (Star a), rest)
      else if is_char "?" q then Some (Alt a Eps, rest)
      else if is_char "{" q
           then match parse_count rest 0 false with
                | Some (n, rest') => Some (repeat_re n a, rest')
                | None => None
                end
           else Some (a, p)
  | [] => Some (a, p)
  end.

(** The members of a bracketed set, up to the closing bracket.  A hyphen
    is a member only as the first or the last character of the set; [first]
    tells that no character of the set was read yet. *)
Fixpoint parse_set (p : pattern) (acc : list ascii) (first : bool)
    : option (regex * pattern) :=
  match p with
  | [] => None
  | Wide _ :: rest => parse_set rest acc false
  | L c :: rest =>
      if Ascii.eqb c "]" then (if first then None else Some (AnyOf acc, rest))
      else if Ascii.eqb c "^" && first then None
      else if Ascii.eqb c "-" && negb first
           then match rest with
                | L d :: rest' =>
                    if Ascii.eqb d "]" then Some (AnyOf (acc ++ [c]), rest')
                    else None
                | _ => None
                end
      else if Ascii.eqb c "\"
           then match rest with
                | L d :: rest' =>
                    if isword d then None else parse_set rest' (acc ++ [d]) false
                | _ => None
                end
           else parse_set rest (acc ++ [c]) false
  end.

Definition escape (c : ascii) : option regex :=
  if Ascii.eqb c "s" then Some Space
  else if Ascii.eqb c "d" then Some Digit
  else if Ascii.eqb c "b" then Some WordB
  else if isword c then None
  else Some (Chr c).

Fixpoint parse_alt (fuel : nat) (p : pattern) {struct fuel} : option (regex * pattern) :=
  match fuel with
  | O => None
  | S n =>
      match parse_cat n p with
      | Some (r1, q :: rest) =>
          if is_char "|" q
          then match parse_alt n rest with
               | Some (r2, rest') => Some (Alt r1 r2, rest')
               | None => None
               end
          else Some (r1, q :: rest)
      | other => other
      end
  end
with parse_cat (fuel : nat) (p : pattern) {struct fuel} : option (regex * pattern) :=
  match fuel with
  | O => None
  | S n =>
      match p with
      | [] => Some (Eps, [])
      | q :: _ =>
          if is_char "|" q || is_char ")" q then Some (Eps, p)
          else match parse_atom n p with
               | Some (a, rest) =>
                   match postfix a rest with
                   | Some (a', rest') =>
                       match parse_cat n rest' with
                       | Some (r, rest'') => Some (Cat a' r, rest'')
                       | None => None
                       end
                   | None => None
                   end
               | None => None
               end
      end
  end
with parse_atom (fuel : nat) (p : pattern) {struct fuel} : option (regex * pattern) :=
  match fuel with
  | O => None
  | S n =>
      match p with
      | [] => None
      | Wide _ :: rest => Some (Never, rest)
      | L c :: rest =>
          if Ascii.eqb c "("
          then match parse_alt n rest with
               | Some (r, q :: rest') =>
                   if is_char ")" q then Some (r, rest') else None
               | _ => None
               end
          else if Ascii.eqb c "[" then parse_set rest [] true
          else if Ascii.eqb c "\"
               then match rest with
                    | L d :: rest' =>
                        match escape d with
                        | Some r => Some (r, rest')
                        | None => None
                        end
                    | _ => None
                    end
          else if existsb (Ascii.eqb c)
                    ["*"; "+"; "?"; "{"; "}"; "]"; "."; "^"; "$"]%char
               then None
          else Some (Chr c, rest)
      end
  end.

(** [re.compile]; [None] stands for [re.error], and is also the answer
    for a pattern outside the fragment (an unescaped [.], [^] or [$], a
    letter escape other than the three above, a range or a negation in a
    set, a lazy or a two-sided quantifier). *)
Definition compile (p : pattern) : option regex :=
  match parse_alt (3 * List.length p + 3) p with
  | Some (r, []) => Some r
  | _ => None
  end.

(** [re.search(p, text) is not None]; [None] when compiling [p] raises. *)
Definition search (p : pattern) (text : string) : option bool :=
  match compile p with
  | Some r => Some (search_from r None text)
  | None => None
  end.

End Re.

(** ** [newsletter_detector.py] *)

Module Detector.

Import Py.
Open Scope Q_scope.

(** *** What the detector is handed

    [EmailMessage] is the dataclass of [gmail_client.py], with the fields
    the detector reads.  The detector itself reads its argument through
    [getattr] with defaults and guards every read with [or ''], so it takes
    any object; [email_object] is that view: an attribute may be missing,
    may hold [None], or reading it may raise. *)

Record EmailMessage : Type := {
  id : string;
  subject : string;
  sender : string;
  sender_email : string;
  body_text : string;
  headers : list (string * string)
}.

Inductive attr (A : Type) : Type :=
| Missing
| Holds (v : A)
| Raises (err : string).
Arguments Missing {A}.
Arguments Holds {A} v.
Arguments Raises {A} err.

(** One element of a [headers] list: a dict (with what [h.get('name')]
    gives, [None] when it is absent or falsy), a string, or anything else. *)
Inductive header_item : Type :=
| ItemDict (name : option string)
| ItemStr (s : string)
| ItemOther.

Inductive headers_value : Type :=
| HNone
| HList (items : list header_item)
| HDict (entries : list (string * string))
| HStr (s : string)
| HOther.

Record email_object : Type := {
  obj_subject : attr (option string);
  obj_sender : attr (option string);
  obj_sender_email : attr (option string);
  obj_body_text : attr (option string);
  obj_headers : attr headers_value
}.

Definition object_of (m : EmailMessage) : email_object := {|
  obj_subject := Holds (Some (subject m));
  obj_sender := Holds (Some (sender m));
  obj_sender_email := Holds (Some (sender_email m));
  obj_body_text := Holds (Some (body_text m));
  obj_headers := Holds (HDict (headers m))
|}.

Record DetectionResult : Type := {
  is_newsletter : bool;
  is_promotional : bool;
  is_worth_reading : bool;
  newsletter_confidence : Q;
  promotional_score : Q;
  quality_score : Q;
  reasons : list string
}.

Record NewsletterDetector : Type := {
  newsletter_threshold : Q;
  promotional_threshold : Q;
  quality_threshold : Q
}.

(** [NewsletterDetector()] with the default thresholds. *)
Definition default_detector : NewsletterDetector := {|
  newsletter_threshold := 0.4;
  promotional_threshold := 0.5;
  quality_threshold := 0.3
|}.

(** *** The tables set up by [__init__] *)

Definition newsletter_domains : list string := [
  "substack.com"; "beehiiv.com"; "mailchimp.com";
  "convertkit.com"; "buttondown.email"; "revue.co";
  "ghost.io"; "campaignmonitor.com"; "mailerlite.com";
  "sendinblue.com"; "getrevue.co"; "emailoctopus.com";
  "benchmarkemail.com"; "moosend.com"; "drip.com";
  "klaviyo.com"; "constantcontact.com"; "hubspot.com";
  "medium.com"; "linkedin.com"; "morningbrew.com";
  "axios.com"; "thenewsette.com"; "thehustle.co" ].

Definition newsletter_sender_patterns : list Re.pattern := map Re.pat [
  "newsletter"; "digest"; "weekly"; "daily";
  "updates?"; "bulletin"; "dispatch"; "brief";
  "roundup"; "recap"; "summary"; "edition";
  "insider"; "report"; "review"; "bytes" ].

(** The set of the fourth pattern holds an em dash, U+2014. *)
Definition newsletter_subject_patterns : list Re.pattern :=
  map Re.pat [ "issue\s*#?\d+"; "edition\s*#?\d+"; "vol\.?\s*\d+" ]
  ++ [ Re.pat "#\d+\s*[-:" ++ Re.Wide 8212 :: Re.pat "]" ]
  ++ map Re.pat [ "weekly"; "daily"; "monthly";
       "digest"; "roundup"; "newsletter"; "this\s+week";
       "top\s+\d+"; "best\s+of"; "highlights" ].

Definition promotional_subject_patterns : list Re.pattern := map Re.pat [
  "\d+%\s*off"; "save\s+\$?\d+"; "discount"; "sale\b";
  "deal\b"; "offer\b"; "promo\b"; "coupon"; "voucher";
  "limited\s+time"; "expires?\b"; "ends\s+(today|soon|tonight)";
  "last\s+chance"; "final\s+(hours?|days?)"; "hurry";
  "don\'?t\s+miss"; "act\s+(now|fast)"; "today\s+only";
  "flash\s+sale"; "clearance"; "free\s+shipping";
  "exclusive\s+(offer|deal|access)"; "special\s+(offer|deal|price)";
  "order\s+(confirmed?|shipped|delivered)";
  "shipping\s+(update|confirmation)"; "tracking";
  "your\s+(order|package|delivery)"; "invoice";
  "receipt"; "payment\s+(received|confirmed)";
  "verify\s+(your|email)"; "confirm\s+(your|email)";
  "password\s+(reset|changed)"; "account\s+(update|alert)";
  "security\s+(alert|notice)"; "login\s+(alert|notification)";
  "(new\s+)?(follower|like|comment|mention|reply)";
  "tagged\s+you"; "connection\s+request"; "friend\s+request";
  "reminder:"; "meeting\s+(invite|reminder|update)";
  "survey"; "feedback"; "review\s+us"; "rate\s+us";
  "we\s+miss\s+you"; "come\s+back"; "abandoned\s+cart" ].

(** The pound sign is code point 163; the euro sign, U+20AC, is wide. *)
Definition promotional_content_patterns : list Re.pattern :=
  map Re.pat [ "shop\s+now"; "buy\s+now"; "order\s+now";
       "click\s+here"; "sign\s+up\s+now";
       "\$\d+(\.\d{2})?" ]
  ++ [ Re.L (ascii_of_nat 163) :: Re.pat "\d+"; Re.Wide 8364 :: Re.pat "\d+" ]
  ++ map Re.pat [ "limited\s+(time|stock|availability)";
       "while\s+supplies\s+last"; "selling\s+fast" ].

Definition promotional_senders : list string := [
  "noreply"; "no-reply"; "donotreply"; "do-not-reply";
  "notifications"; "notification"; "alerts"; "alert";
  "mailer"; "marketing"; "promo"; "promotions";
  "deals"; "offers"; "sales"; "store"; "shop";
  "orders"; "order"; "shipping"; "delivery";
  "support"; "help"; "info"; "billing"; "invoice" ].

Definition quality_subject_patterns : list Re.pattern := map Re.pat [
  "analysis"; "insights?"; "deep\s+dive"; "breakdown";
  "explained"; "how\s+to"; "why\b"; "guide\s+to";
  "lessons?\s+(from|learned)"; "takeaways?";
  "industry"; "market"; "trends?"; "forecast";
  "report\b"; "research"; "study"; "findings";
  "startup"; "venture"; "funding"; "investment";
  "technology"; "innovation"; "future\s+of";
  "opinion"; "perspective"; "essay"; "commentary";
  "interview"; "conversation\s+with";
  "reading\s+list"; "must\s+read"; "curated" ].

Definition blacklisted_domains : list string := [
  "amazon.com"; "ebay.com"; "walmart.com"; "target.com";
  "doordash.com"; "ubereats.com"; "grubhub.com";
  "booking.com"; "expedia.com"; "airbnb.com";
  "uber.com"; "lyft.com";
  "facebookmail.com"; "twitter.com"; "x.com";
  "instagram.com"; "tiktok.com"; "pinterest.com";
  "netflix.com"; "spotify.com"; "youtube.com";
  "paypal.com"; "venmo.com"; "cashapp.com" ].

Definition whitelisted_domains : list string := [
  "substack.com"; "beehiiv.com"; "buttondown.email";
  "ghost.io"; "morningbrew.com"; "axios.com"; "thehustle.co" ].

(** The pattern of the price check in [_calculate_promotional_score]. *)
Definition price_pattern : Re.pattern :=
  Re.pat "\$\d+|%\s*off|\bsale\b|\bdeal\b".

(** The set of [re.split(r'[@.\-_]', ...)]. *)
Definition sender_separator (c : ascii) : bool :=
  existsb (Ascii.eqb c) ["@"; "."; "-"; "_"]%char.

(** *** Helpers *)

Definition _extract_domain (email : string) : string :=
  if negb (truthy email) then ""
  else if contains_char "@" email
       then strip_with (Ascii.eqb ">") (lower (last (split_char "@" email) ""))
       else "".

Definition _extract_sender_name (sender : string) : string :=
  if negb (truthy sender) then ""
  else if contains_char "<" sender
       then lower (strip (hd "" (split_char "<" sender)))
       else lower sender.

(** A pattern whose search raises is skipped ([except Exception: continue]). *)
Definition pattern_hits (text_lower : string) (p : Re.pattern) : bool :=
  match Re.search p text_lower with
  | Some b => b
  | None => false
  end.

Definition _check_patterns (text : string) (patterns : list Re.pattern)
    : bool * list Re.pattern :=
  if negb (truthy text) then (false, [])
  else
    let text_lower := lower text in
    let matches := filter (pattern_hits text_lower) patterns in
    ((0 <? List.length matches)%nat, matches).

Definition item_is_unsubscribe (h : header_item) : bool :=
  match h with
  | ItemDict name =>
      String.eqb (lower (match name with Some n => n | None => "" end))
                 "list-unsubscribe"
  | ItemStr s => contains "list-unsubscribe" (lower s)
  | ItemOther => false
  end.

(** The whole body sits in a [try] whose handler returns [False]. *)
Definition _has_unsubscribe_header (email : email_object) : bool :=
  match obj_headers email with
  | Raises _ => false
  | Missing => false
  | Holds HNone => false
  | Holds (HList items) => existsb item_is_unsubscribe items
  | Holds (HDict entries) =>
      existsb (fun kv => String.eqb (lower (fst kv)) "list-unsubscribe") entries
  | Holds (HStr s) => contains "list-unsubscribe" (lower s)
  | Holds HOther => false
  end.

(** *** The body of a score function

    Each [_calculate_*_score] is one [try] block over the two locals
    [score] and [reasons], followed by [return clamp(score), reasons].  A
    computation of the block reads and updates the locals and ends
    normally, by an early [return], or by raising; the locals written
    before a raise are still there afterwards. *)

Definition locals : Type := (Q * list string)%type.

Inductive outcome (A : Type) : Type :=
| Next (a : A)
| Return (r : Q * list string)
| Raise (err : string).
Arguments Next {A} a.
Arguments Return {A} r.
Arguments Raise {A} err.

Definition M (A : Type) : Type := locals -> outcome A * locals.

Definition ret {A : Type} (a : A) : M A := fun st => (Next a, st).

Definition bind {A B : Type} (m : M A) (f : A -> M B) : M B :=
  fun st =>
    match m st with
    | (Next a, st') => f a st'
    | (Return r, st') => (Return r, st')
    | (Raise e, st') => (Raise e, st')
    end.

Notation "x <- m ;; k" := (bind m (fun x => k))
  (at level 61, m at next level, right associativity).
Notation "m ;; k" := (bind m (fun _ => k))
  (at level 61, right associativity).

Definition raise {A : Type} (err : string) : M A := fun st => (Raise err, st).

Definition return_ {A : Type} (r : Q * list string) : M A :=
  fun st => (Return r, st).

(** [score += q] *)
Definition add_score (q : Q) : M unit :=
  fun st => (Next tt, (fst st + q, snd st)).

(** [reasons.append(r)] *)
Definition append_reason (r : string) : M unit :=
  fun st => (Next tt, (fst st, snd st ++ [r])).

Definition when (b : bool) (m : M unit) : M unit :=
  if b then m else ret tt.

(** [str(getattr(email, name, '') or '')] *)
Definition getattr_str (a : attr (option string)) : M string :=
  match a with
  | Missing => ret ""
  | Holds None => ret ""
  | Holds (Some s) => ret s
  | Raises err => raise err
  end.

(** [re.search(p, text)] as a condition, inside the [try]. *)
Definition re_search (p : Re.pattern) (text : string) : M bool :=
  match Re.search p text with
  | Some b => ret b
  | None => raise "re.error"
  end.

(** [try: body   except Exception: pass] and then
    [return clamp(score), reasons]. *)
Definition try_pass_then_return (body : M unit) (clamp : Q -> Q)
    : Q * list string :=
  match body (0, []) with
  | (Return r, _) => r
  | (_, (score, reasons)) => (clamp score, reasons)
  end.

(** *** The three scores *)

Definition newsletter_body (email : email_object) : M unit :=
  sender_email <- getattr_str (obj_sender_email email) ;;
  let sender_email := lower sender_email in
  sender <- getattr_str (obj_sender email) ;;
  let sender_name := _extract_sender_name sender in
  let domain := _extract_domain sender_email in
  subject <- getattr_str (obj_subject email) ;;
  when (_has_unsubscribe_header email)
    (add_score 0.35 ;; append_reason "Has unsubscribe header") ;;
  when (mem domain newsletter_domains)
    (add_score 0.35 ;; append_reason ("Newsletter platform: " ++ domain)) ;;
  when (fst (_check_patterns sender_name newsletter_sender_patterns))
    (add_score 0.2 ;; append_reason "Newsletter sender pattern") ;;
  when (fst (_check_patterns subject newsletter_subject_patterns))
    (add_score 0.25 ;; append_reason "Newsletter subject pattern").

Definition _calculate_newsletter_score (email : email_object) : Q * list string :=
  try_pass_then_return (newsletter_body email) (fun score => Qmin score 1).

(** The loop over [sender_parts]: the first part that is a known token. *)
Definition promotional_sender_part (sender_email : string) : option string :=
  find (fun part => mem part promotional_senders)
       (split_at sender_separator sender_email "").

Definition promotional_body (email : email_object) : M unit :=
  sender_email <- getattr_str (obj_sender_email email) ;;
  let sender_email := lower sender_email in
  let domain := _extract_domain sender_email in
  subject <- getattr_str (obj_subject email) ;;
  body <- getattr_str (obj_body_text email) ;;
  let body := take 2000 body in
  if mem domain blacklisted_domains
  then return_ (1, ["Blacklisted sender domain"])
  else
    match promotional_sender_part sender_email with
    | Some part =>
        add_score 0.3 ;; append_reason ("Promotional sender: " ++ part)
    | None => ret tt
    end ;;
    let '(matched, patterns) := _check_patterns subject promotional_subject_patterns in
    when matched
      (add_score (0.15 * inject_Z (Z.of_nat (Nat.min (List.length patterns) 3))) ;;
       append_reason ("Promotional subject ("
                      ++ str_of_nat (List.length patterns) ++ " patterns)")) ;;
    let '(matched, patterns) := _check_patterns body promotional_content_patterns in
    when matched
      (add_score (0.1 * inject_Z (Z.of_nat (Nat.min (List.length patterns) 4))) ;;
       append_reason "Promotional content") ;;
    price <- re_search price_pattern (lower subject) ;;
    when price
      (add_score 0.25 ;; append_reason "Price/discount in subject").

Definition _calculate_promotional_score (email : email_object) : Q * list string :=
  try_pass_then_return (promotional_body email) (fun score => Qmin score 1).

(** The content-length branch: [if word_count > 500 ... elif > 200 ...
    elif < 100 ...]. *)
Definition content_length_step (word_count : nat) : M unit :=
  if (500 <? word_count)%nat
  then add_score 0.15 ;; append_reason "Substantial content"
  else if (200 <? word_count)%nat
  then add_score 0.1 ;; append_reason "Decent content length"
  else if (word_count <? 100)%nat
  then add_score (- 0.2)
  else ret tt.

Definition quality_body (email : email_object) : M unit :=
  sender_email <- getattr_str (obj_sender_email email) ;;
  let sender_email := lower sender_email in
  let domain := _extract_domain sender_email in
  subject <- getattr_str (obj_subject email) ;;
  body <- getattr_str (obj_body_text email) ;;
  let body := take 3000 body in
  when (mem domain whitelisted_domains)
    (add_score 0.4 ;; append_reason "Quality newsletter platform") ;;
  let '(matched, patterns) := _check_patterns subject quality_subject_patterns in
  when matched
    (add_score (0.15 * inject_Z (Z.of_nat (Nat.min (List.length patterns) 2))) ;;
     append_reason "Quality subject") ;;
  let word_count := List.length (split_ws body) in
  content_length_step word_count.

Definition _calculate_quality_score (email : email_object) : Q * list string :=
  try_pass_then_return (quality_body email)
    (fun score => Qmax (Qmin score 1) 0).

(** *** [detect] *)

(** The verdict of the [except] branch of [detect]. *)
Definition error_result (err : string) : DetectionResult := {|
  is_newsletter := false;
  is_promotional := true;
  is_worth_reading := false;
  newsletter_confidence := 0;
  promotional_score := 1;
  quality_score := 0;
  reasons := [("Error: " ++ err)%string]
|}.

(** The [try] block of [detect].  The three score functions handle their
    own exceptions and return pairs, and comparing rationals cannot raise,
    so the block always reaches its [return]. *)
Definition detect_body (self : NewsletterDetector) (email : email_object)
    : string + DetectionResult :=
  let '(newsletter_score, nl_reasons) := _calculate_newsletter_score email in
  let '(promo_score, promo_reasons) := _calculate_promotional_score email in
  let '(quality_score, quality_reasons) := _calculate_quality_score email in
  let is_newsletter := Qle_bool (newsletter_threshold self) newsletter_score in
  let is_promotional := Qle_bool (promotional_threshold self) promo_score in
  let is_worth_reading :=
    is_newsletter && negb is_promotional
    && Qle_bool (quality_threshold self) quality_score in
  let all_reasons := nl_reasons ++ promo_reasons ++ quality_reasons in
  inr {|
    is_newsletter := is_newsletter;
    is_promotional := is_promotional;
    is_worth_reading := is_worth_reading;
    newsletter_confidence := newsletter_score;
    promotional_score := promo_score;
    quality_score := quality_score;
    reasons := all_reasons
  |}.

Definition detect (self : NewsletterDetector) (email : email_object)
    : DetectionResult :=
  match detect_body self email with
  | inr result => result
  | inl err => error_result err
  end.

(** *** [filter_newsletters] *)

(** [list.sort(key=..., reverse=True)]: Python's sort is stable, also with
    [reverse=True]; modelled as the stable insertion sort by descending
    key.  [insert_desc x l] puts [x] in front of the first element whose
    key is not above its own. *)
Fixpoint insert_desc {A : Type} (key : A -> Q) (x : A) (l : list A) : list A :=
  match l with
  | [] => [x]
  | y :: l' =>
      if Qle_bool (key y) (key x) then x :: y :: l'
      else y :: insert_desc key x l'
  end.

Fixpoint sort_desc {A : Type} (key : A -> Q) (l : list A) : list A :=
  match l with
  | [] => []
  | x :: l' => insert_desc key x (sort_desc key l')
  end.

(** The loop of [filter_newsletters]: the pairs appended to [results]. *)
Fixpoint accepted (self : NewsletterDetector) (emails : list email_object)
    (quality_only : bool) : list (email_object * DetectionResult) :=
  match emails with
  | [] => []
  | email :: rest =>
      let result := detect self email in
      let keep :=
        if quality_only then is_worth_reading result else is_newsletter result in
      if keep then (email, result) :: accepted self rest quality_only
      else accepted self rest quality_only
  end.

Definition filter_newsletters (self : NewsletterDetector)
    (emails : list email_object) (quality_only : bool)
    : list (email_object * DetectionResult) :=
  sort_desc (fun x => quality_score (snd x)) (accepted self emails quality_only).

(** *** Vocabulary of the properties *)

(** [x] may stand before [y] in a list sorted by descending key. *)
Definition desc {A : Type} (key : A -> Q) (x y : A) : Prop := key y <= key x.

(** The elements whose key equals [q], in their order in the list. *)
Definition with_key {A : Type} (key : A -> Q) (q : Q) (l : list A) : list A :=
  filter (fun x => Qeq_bool (key x) q) l.

(** The test the loop of [filter_newsletters] applies to a message. *)
Definition kept (self : NewsletterDetector) (quality_only : bool)
    (email : email_object) : bool :=
  if quality_only then is_worth_reading (detect self email)
  else is_newsletter (detect self email).

(** Reading the attribute raises. *)
Definition raises {A : Type} (a : attr A) : bool :=
  match a with
  | Raises _ => true
  | _ => false
  end.

(** The domain the score functions compute for a message. *)
Definition sender_domain (m : EmailMessage) : string :=
  _extract_domain (lower (sender_email m)).



(** A contribution scaled by the number of patterns hit, up to [cap]. *)
Definition hits_term (weight : Q) (cap : nat) (text : string)
    (patterns : list Re.pattern) : Q :=
  if fst (_check_patterns text patterns)
  then weight * inject_Z (Z.of_nat
         (Nat.min (List.length (snd (_check_patterns text patterns))) cap))
  else 0.





Definition whitelist_term (m : EmailMessage) : Q :=
  if mem (sender_domain m) whitelisted_domains then 0.4 else 0.

Definition quality_subject_term (m : EmailMessage) : Q :=
  hits_term 0.15 2 (subject m) quality_subject_patterns.

(** The body-length term as the specification words it. *)
Definition body_length_term (word_count : nat) : Q :=
  if (500 <? word_count)%nat then 0.15
  else if (200 <? word_count)%nat then 0.1
  else if (word_count <? 100)%nat then - 0.2
  else 0.

(** The number of words the quality score counts: those of the first 3000
    characters of the body. *)
Definition counted_words (m : EmailMessage) : nat :=
  List.length (split_ws (take 3000 (body_text m))).

End Detector.

(** ** [config.py] and [embeddings.py] *)

(** The two settings of [config.py] the chunker falls back on; they are
    read from the environment when the module is loaded. *)
Module config.

Record t : Type := {
  CHUNK_SIZE : Z;
  CHUNK_OVERLAP : Z
}.

(** The values when the environment sets neither. *)
Definition defaults : t := {| CHUNK_SIZE := 1000; CHUNK_OVERLAP := 200 |}.

End config.

Module CleanedContent.

Record t : Type := {
  title : string;
  text : string;
  word_count : Z;
  source_email_id : string;
  source_subject : string;
  source_sender : string;
  source_date : string
}.

End CleanedContent.

Module TextChunk.

Record t : Type := {
  id : string;
  text : string;
  embedding : option (list Q);
  source_email_id : string;
  source_title : string;
  source_sender : string;
  source_date : string;
  chunk_index : nat;
  total_chunks : nat
}.

End TextChunk.

Module Chunker.

Import Py.
Open Scope Z_scope.

Record TextChunker : Type := {
  chunk_size : Z;
  overlap : Z
}.

(** [x or default] for an optional int: [None] and [0] are falsy. *)
Definition or_default (x : option Z) (default : Z) : Z :=
  match x with
  | None => default
  | Some v => if v =? 0 then default else v
  end.

(** [TextChunker.__init__].  The result type leaves room for a raised
    exception; the body has no [raise] and no call that could raise. *)
Definition __init__ (cfg : config.t) (chunk_size overlap : option Z)
    : string + TextChunker :=
  inr {|
    chunk_size := or_default chunk_size (config.CHUNK_SIZE cfg);
    overlap := or_default overlap (config.CHUNK_OVERLAP cfg)
  |}.

Definition is_terminal (c : ascii) : bool :=
  existsb (Ascii.eqb c) ["."; "!"; "?"]%char.

(** [re.split(r'(?<=[.!?])\s+', text)]: the text is cut at every run of
    whitespace that directly follows one of [. ! ?], and the run is dropped.
    [cur] is the piece read so far, [prev] the character before the
    position, [in_gap] tells that the position is inside a dropped run. *)
Fixpoint split_after_terminal (s : string) (cur : string) (prev : option ascii)
    (in_gap : bool) : list string :=
  match s with
  | EmptyString => [cur]
  | String c s' =>
      if isspace c
      then
        if in_gap then split_after_terminal s' cur (Some c) true
        else if match prev with Some p => is_terminal p | None => false end
             then cur :: split_after_terminal s' EmptyString (Some c) true
             else split_after_terminal s' (snoc cur c) (Some c) false
      else split_after_terminal s' (snoc cur c) (Some c) false
  end.

Definition _split_into_sentences (text : string) : list string :=
  let sentences := split_after_terminal text EmptyString None false in
  let final_sentences :=
    flat_map
      (fun sentence =>
         if contains (String LF (String LF EmptyString)) sentence
         then split_blank_line sentence EmptyString
         else [sentence])
      sentences in
  filter truthy (map strip final_sentences).

(** The locals of the loop of [chunk]. *)
Record loop_state : Type := {
  chunks : list string;
  current_chunk : list string;
  current_length : Z
}.

(** One iteration of [for sentence in sentences]. *)
Definition chunk_step (self : TextChunker) (st : loop_state) (sentence : string)
    : loop_state :=
  let sentence_length := len sentence in
  let st :=
    if (current_length st + sentence_length >? chunk_size self)
       && negb (Nat.eqb (List.length (current_chunk st)) 0)
    then
      let chunk_text := join_space (current_chunk st) in
      let overlap_text :=
        if (2 <=? List.length (current_chunk st))%nat
        then join_space (last_two (current_chunk st))
        else EmptyString in
      let overlap_text :=
        if len overlap_text >? overlap self
        then slice_from (- overlap self) overlap_text
        else overlap_text in
      {| chunks := chunks st ++ [chunk_text];
         current_chunk := if truthy overlap_text then [overlap_text] else [];
         current_length := len overlap_text |}
    else st in
  {| chunks := chunks st;
     current_chunk := current_chunk st ++ [sentence];
     current_length := current_length st + sentence_length + 1 |}.

(** The texts of the windows: the loop, then the last chunk. *)
Definition chunk_texts (self : TextChunker) (sentences : list string) : list string :=
  let st :=
    fold_left (chunk_step self) sentences
      {| chunks := []; current_chunk := []; current_length := 0 |} in
  match current_chunk st with
  | [] => chunks st
  | _ :: _ => chunks st ++ [join_space (current_chunk st)]
  end.

(** [TextChunk(...)] as both [return] statements of [chunk] build it. *)
Definition make_chunk (content : CleanedContent.t) (i total : nat)
    (chunk_text : string) : TextChunk.t := {|
  TextChunk.id := CleanedContent.source_email_id content ++ "_" ++ str_of_nat i;
  TextChunk.text := chunk_text;
  TextChunk.embedding := None;
  TextChunk.source_email_id := CleanedContent.source_email_id content;
  TextChunk.source_title := CleanedContent.title content;
  TextChunk.source_sender := CleanedContent.source_sender content;
  TextChunk.source_date := CleanedContent.source_date content;
  TextChunk.chunk_index := i;
  TextChunk.total_chunks := total
|}.

(** [[f(i, x) for i, x in enumerate(l)]], counting from [i]. *)
Fixpoint map_enumerate {A B : Type} (f : nat -> A -> B) (i : nat) (l : list A)
    : list B :=
  match l with
  | [] => []
  | x :: l' => f i x :: map_enumerate f (S i) l'
  end.

Definition chunk (self : TextChunker) (content : CleanedContent.t)
    : list TextChunk.t :=
  let text := CleanedContent.text content in
  if len text <=? chunk_size self
  then [make_chunk content 0 1 text]
  else
    let sentences := _split_into_sentences text in
    let chunks := chunk_texts self sentences in
    let total_chunks := List.length chunks in
    map_enumerate
      (fun i chunk_text => make_chunk content i total_chunks (strip chunk_text))
      0 chunks.

(** *** Vocabulary of the properties *)

(** What identifies a window: its id, its text and its two ordinals. *)
Definition window_key (w : TextChunk.t) : string * string * nat * nat :=
  (TextChunk.id w, TextChunk.text w, TextChunk.chunk_index w,
   TextChunk.total_chunks w).

End Chunker.

(** ** Concrete inputs *)

Module Examples.

Import Py Detector.

Fixpoint repeat_string (s : string) (n : nat) : string :=
  match n with
  | O => EmptyString
  | S n' => s ++ repeat_string s n'
  end.

(** The block-listed sender of the specification's scenario. *)
Definition amazon_offer : EmailMessage := {|
  id := "m-amazon";
  subject := "50% off today only!";
  sender := "Amazon <noreply@amazon.com>";
  sender_email := "noreply@amazon.com";
  body_text := "Shop now and save.";
  headers := []
|}.

(** The newsletter of the specification's scenario, with a body of 800
    words. *)
Definition morning_brew_issue : EmailMessage := {|
  id := "m-brew";
  subject := "Issue #214: This Week in Tech";
  sender := "Morning Brew <weekly@morningbrew.com>";
  sender_email := "weekly@morningbrew.com";
  body_text := repeat_string "word " 800;
  headers := [("list-unsubscribe", "<mailto:leave@morningbrew.com>")]
|}.


(** A body of 600 words of nine letters: 6000 characters. *)
Definition long_words_body : string := repeat_string "wordsword " 600.

Definition long_words_letter : EmailMessage := {|
  id := "m-long";
  subject := "Hello";
  sender := "A Writer";
  sender_email := "writer@example.org";
  body_text := long_words_body;
  headers := []
|}.

(** A newsletter whose body cannot be read: reading [body_text] raises. *)
Definition unreadable_body : email_object := {|
  obj_subject := Holds (Some "Issue #214: This Week in Tech");
  obj_sender := Holds (Some "Morning Brew <weekly@morningbrew.com>");
  obj_sender_email := Holds (Some "weekly@morningbrew.com");
  obj_body_text := Raises "body unavailable";
  obj_headers := Holds (HDict [("list-unsubscribe", "<mailto:leave@morningbrew.com>")])
|}.

(** A cleaned document with the given text. *)
Definition note (text : string) : CleanedContent.t := {|
  CleanedContent.title := "A note";
  CleanedContent.text := text;
  CleanedContent.word_count := 0;
  CleanedContent.source_email_id := "m-note";
  CleanedContent.source_subject := "A note";
  CleanedContent.source_sender := "A Writer";
  CleanedContent.source_date := "2024-05-01T09:00:00"
|}.

(** The same text under another title, sender and date. *)
Definition forwarded_note (text : string) : CleanedContent.t := {|
  CleanedContent.title := "Fwd: A note";
  CleanedContent.text := text;
  CleanedContent.word_count := 10;
  CleanedContent.source_email_id := "m-note";
  CleanedContent.source_subject := "Fwd: A note";
  CleanedContent.source_sender := "A Reader";
  CleanedContent.source_date := "2024-05-02T10:30:00"
|}.

(** Three sentences of 9, 8 and 34 characters: 53 characters in all. *)
Definition rainy_text : string :=
  "It rains. We stay. Tomorrow the sun will return here.".

(** [TextChunker(chunk_size=40, overlap=10)] *)
Definition small_chunker : Chunker.TextChunker :=
  {| Chunker.chunk_size := 40; Chunker.overlap := 10 |}.

(** [TextChunker()] under the default settings. *)
Definition default_chunker : Chunker.TextChunker :=
  {| Chunker.chunk_size := 1000; Chunker.overlap := 200 |}.

(** The default thresholds, except that any quality score is accepted. *)
Definition any_quality : NewsletterDetector := {|
  newsletter_threshold := 0.4;
  promotional_threshold := 0.5;
  quality_threshold := 0
|}.

End Examples.

(** ** Vocabulary of the further properties of the chunker *)

Module ChunkPlan.

Import Py Chunker.

(** The string holds a character that is not whitespace. *)
Fixpoint has_ink (s : string) : bool :=
  match s with
  | EmptyString => false
  | String c s' => negb (isspace c) || has_ink s'
  end.

(** How a window is put together: the overlap text it was seeded with
    (empty when it was not seeded) and the sentences added to it. *)
Abbreviation plan := (string * list string)%type (only parsing).

Definition seed_list (seed : string) : list string :=
  if truthy seed then [seed] else [].

(** The text of a window before [strip]: seed and sentences joined by
    single spaces. *)
Definition render (p : plan) : string :=
  join_space (seed_list (fst p) ++ snd p).

(** The overlap text that seeds the window after [current]. *)
Definition next_seed (self : TextChunker) (current : list string) : string :=
  let overlap_text :=
    if (2 <=? List.length current)%nat
    then join_space (last_two current) else EmptyString in
  if (len overlap_text >? overlap self)%Z
  then slice_from (- overlap self)%Z overlap_text
  else overlap_text.

(** [a] is what [b] ends with. *)
Definition is_suffix (a b : string) : Prop :=
  exists front : string, b = (front ++ a)%string.

(** Every seed is what the window before it ends with, the first window
    following the text [before]. *)
Fixpoint chained (before : string) (plans : list plan) : Prop :=
  match plans with
  | [] => True
  | p :: rest => is_suffix (fst p) before /\ chained (render p) rest
  end.

(** The state of the loop after the sentences [done]: the closed windows
    are the rendered [plans], the open window holds [seed] and [units],
    and the sentences of the plans and of the open window, in order, are
    [done]. *)
Definition tracks (self : TextChunker) (done : list string) (st : loop_state)
    (plans : list plan) (seed : string) (units : list string) : Prop :=
  chunks st = map render plans
  /\ current_chunk st = seed_list seed ++ units
  /\ List.concat (map snd plans) ++ units = done
  /\ Forall (fun p : plan => snd p <> []) plans
  /\ (units = [] -> seed = EmptyString)
  /\ hd seed (map fst plans) = EmptyString
  /\ chained EmptyString plans
  /\ is_suffix seed (last (map render plans) EmptyString)
  /\ ((0 < overlap self)%Z ->
      (len seed <= overlap self)%Z
      /\ Forall (fun p : plan => (len (fst p) <= overlap self)%Z) plans).

End ChunkPlan.

(** ** Vocabulary of the further properties of the detector *)

Module ScoreLogic.

Import Detector.
Open Scope Q_scope.

(** A computation of a score body respects the property [P] of the running
    score: it leaves a score with [P] when started on one, and a pair it
    returns early has its score between 0 and 1. *)
Definition respects (P : Q -> Prop) {A : Type} (m : M A) : Prop :=
  forall st : locals,
    P (fst st) ->
    P (fst (snd (m st)))
    /\ forall r, fst (m st) = Return r -> 0 <= fst r /\ fst r <= 1.

(** What reading a string attribute amounts to. *)
Definition read_result (a : attr (option string)) : string + string :=
  match a with
  | Missing => inl EmptyString
  | Holds None => inl EmptyString
  | Holds (Some s) => inl s
  | Raises err => inr err
  end.

(** The message with subject, sender and address in lower case. *)
Definition lowered (m : EmailMessage) : EmailMessage := {|
  id := id m;
  subject := Py.lower (subject m);
  sender := Py.lower (sender m);
  sender_email := Py.lower (sender_email m);
  body_text := body_text m;
  headers := headers m
|}.

End ScoreLogic.

(** ** [gmail_client.py]: the headers and the sender of a message *)

(** A [dict] with string keys, as the list of its items in insertion
    order. *)
Module PyDict.

(** [d[k] = v]: a key that is present keeps its place and takes the new
    value, a new key goes to the end. *)
Fixpoint setitem {V : Type} (k : string) (v : V) (d : list (string * V))
    : list (string * V) :=
  match d with
  | [] => [(k, v)]
  | (k', v') :: d' =>
      if String.eqb k k' then (k', v) :: d' else (k', v') :: setitem k v d'
  end.

(** [d.get(k, default)] *)
Fixpoint get {V : Type} (d : list (string * V)) (k : string) (default : V) : V :=
  match d with
  | [] => default
  | (k', v') :: d' => if String.eqb k k' then v' else get d' k default
  end.

(** [k in d] *)
Definition has_key {V : Type} (d : list (string * V)) (k : string) : bool :=
  existsb (fun kv => String.eqb k (fst kv)) d.

End PyDict.

Module GmailClient.

Import Py PyDict Detector.

(** [{h["name"].lower(): h["value"] for h in headers}], for the header
    list of the Gmail API: every element has a name and a value, here the
    two components of a pair. *)
Definition _parse_headers (headers : list (string * string))
    : list (string * string) :=
  fold_left (fun d h => setitem (lower (fst h)) (snd h) d) headers [].

(** [s.rsplit(c, 1)] for a one-character [c] that occurs in [s]: what
    stands before the last [c] and what stands after it.  [None] when [c]
    does not occur. *)
Fixpoint rsplit_once (c : ascii) (s : string) : option (string * string) :=
  match s with
  | EmptyString => None
  | String d s' =>
      match rsplit_once c s' with
      | Some (before, after) => Some (String d before, after)
      | None => if Ascii.eqb c d then Some (EmptyString, s') else None
      end
  end.

Definition double_quote : ascii := ascii_of_nat 34.

Definition _extract_email_address (from_header : string) : string * string :=
  if contains_char "<" from_header && contains_char ">" from_header
  then
    match rsplit_once "<" from_header with
    | Some (before, after) =>
        (strip_with (Ascii.eqb double_quote) (strip before),
         strip (rstrip_with (Ascii.eqb ">") after))
    | None => (from_header, from_header)
    end
  else (from_header, from_header).

(** The [EmailMessage] that [get_message] returns, as far as the detector
    reads it, from the id of the fetched message, the header list of its
    payload and the plain-text body [_get_body_content] found. *)
Definition get_message (msg_id : string) (payload_headers : list (string * string))
    (text_body : string) : EmailMessage :=
  let headers := _parse_headers payload_headers in
  let '(sender_name, sender_email) :=
    _extract_email_address (get headers "from" "") in
  {| id := msg_id;
     subject := get headers "subject" "(No Subject)";
     sender := sender_name;
     sender_email := sender_email;
     body_text := text_body;
     headers := headers |}.

(** *** Vocabulary of the properties *)

(** The value of the last header named [k], whatever the case of the
    letters of its name. *)
Definition last_named (k : string) (headers : list (string * string))
    : option string :=
  option_map snd (find (fun h => String.eqb k (lower (fst h))) (rev headers)).

(** A character an address between angle brackets does not hold. *)
Definition bracket_or_space (c : ascii) : bool :=
  Ascii.eqb c "<" || Ascii.eqb c ">" || isspace c.

End GmailClient.

(** ** [content_cleaner.py], [vector_store.py] and [rag_engine.py]: the
    sender shown with a source, and the conversation *)

Module ContentCleaner.

Import Detector.

(** The [source_sender] that [clean] gives the content of a message:
    [f"{email.sender} <{email.sender_email}>"]. *)
Definition source_sender_of (email : EmailMessage) : string :=
  sender email ++ " <" ++ sender_email email ++ ">".

End ContentCleaner.

Module VectorStore.

Record SearchResult : Type := {
  chunk_id : string;
  text : string;
  score : Q;
  source_title : string;
  source_sender : string;
  source_date : string;
  source_email_id : string
}.

End VectorStore.

Module RagEngine.

Import Py VectorStore.

Record RAGResponse : Type := {
  answer : string;
  sources : list SearchResult;
  query : string;
  context_used : string
}.

Definition NL : string := String LF EmptyString.

(** The sender as a source block shows it: [sender.split("<")[0].strip()]
    when the sender holds a [<]. *)
Definition shown_sender (sender : string) : string :=
  if contains_char "<" sender
  then strip (hd EmptyString (split_char "<" sender))
  else sender.

(** The block of the result at position [i]. *)
Definition context_part (i : nat) (result : SearchResult) : string :=
  let date :=
    if truthy (source_date result) then take 10 (source_date result)
    else "Unknown date" in
  let sender := shown_sender (source_sender result) in
  "---" ++ NL
  ++ "**Source " ++ str_of_nat i ++ ": " ++ source_title result ++ "**" ++ NL
  ++ "From: " ++ sender ++ NL
  ++ "Date: " ++ date ++ NL
  ++ NL
  ++ text result ++ NL
  ++ "---".

Definition _format_context (results : list SearchResult) : string :=
  match results with
  | [] => "No relevant newsletter content found."
  | _ :: _ =>
      String.concat (NL ++ NL)%string
        (Chunker.map_enumerate context_part 1 results)
  end.

End RagEngine.

Module Conversation.

Import Py RagEngine.

(** One entry of [history]: [{"user": ..., "assistant": ...}]. *)
Record turn : Type := {
  user : string;
  assistant : string
}.

Record ConversationHandler : Type := {
  history : list turn;
  max_history : Z
}.

(** [ConversationHandler(rag_engine)] *)
Definition __init__ : ConversationHandler :=
  {| history := []; max_history := 10 |}.

(** [l[i:]] for a list and any int [i]. *)
Definition list_slice_from {A : Type} (i : Z) (l : list A) : list A :=
  if (i <? 0)%Z
  then skipn (Z.to_nat (Z.max (Z.of_nat (List.length l) + i) 0)) l
  else skipn (Z.to_nat i) l.

(** The text put in front of the question: the last three turns, 150
    characters of each side. *)
Definition history_context (history : list turn) : string :=
  fold_left
    (fun history_context turn =>
       ((history_context ++ ("User: " ++ take 150 (user turn) ++ NL))
        ++ ("Assistant: " ++ take 150 (assistant turn) ++ NL))%string)
    (list_slice_from (-3) history)
    ("Previous conversation:" ++ NL)%string.

Definition enhanced_query (history : list turn) (message : string) : string :=
  match history with
  | [] => message
  | _ :: _ =>
      (history_context history ++ NL ++ "Current question: " ++ message)%string
  end.

Section Chat.

(** [self.rag.query] calls the embedding model, the vector store and the
    chat model.  It is a parameter here: from the question and the state
    [W] of those services it gives a response, or [None] when an exception
    escapes it, and the next state. *)
Context {W : Type} (rag_query : string -> W -> option RAGResponse * W).

(** [chat]: the response ([None] when [query] raised, which ends the call
    before the history is touched), the handler and the services after
    the call. *)
Definition chat (self : ConversationHandler) (message : string) (w : W)
    : option RAGResponse * ConversationHandler * W :=
  let enhanced_query := enhanced_query (history self) message in
  match rag_query enhanced_query w with
  | (None, w') => (None, self, w')
  | (Some response, w') =>
      let history :=
        history self ++ [{| user := message; assistant := answer response |}] in
      let history :=
        if (Z.of_nat (List.length history) >? max_history self)%Z
        then list_slice_from (- max_history self) history
        else history in
      (Some response,
       {| history := history; max_history := max_history self |}, w')
  end.

(** [chat] called on each message in turn. *)
Fixpoint chats (self : ConversationHandler) (messages : list string) (w : W)
    : list (option RAGResponse) * ConversationHandler * W :=
  match messages with
  | [] => ([], self, w)
  | message :: rest =>
      let '(response, self', w') := chat self message w in
      let '(responses, self'', w'') := chats self' rest w' in
      (response :: responses, self'', w'')
  end.

End Chat.

(** *** Vocabulary of the properties *)

(** The exchanges that were answered: each message with the answer it
    got, in order. *)
Fixpoint exchanges (messages : list string) (responses : list (option RAGResponse))
    : list turn :=
  match messages, responses with
  | message :: messages', Some response :: responses' =>
      {| user := message; assistant := answer response |}
      :: exchanges messages' responses'
  | _ :: messages', None :: responses' => exchanges messages' responses'
  | _, _ => []
  end.

(** The last [n] elements of a list, all of it when it has fewer. *)
Definition last_n {A : Type} (n : nat) (l : list A) : list A :=
  skipn (List.length l - n) l.

End Conversation.

(** ** [embeddings.py]: the embedding pipeline *)

Module Pipeline.

Import Py Chunker.

Section Embedder.

(** [EmbeddingGenerator.generate] makes one call to the embedding service
    and returns [None] whenever the call fails.  It is a parameter here:
    from the text and the state [W] of the service it gives the embedding
    or [None], and the next state. *)
Context {W : Type} (generate : string -> W -> option (list Q) * W).

(** [generate_batch]: every chunk, in order, gets the outcome of
    [generate] on its text as its embedding. *)
Fixpoint generate_batch (chunks : list TextChunk.t) (w : W)
    : list TextChunk.t * W :=
  match chunks with
  | [] => ([], w)
  | chunk :: rest =>
      let '(embedding, w') := generate (TextChunk.text chunk) w in
      let chunk := {|
        TextChunk.id := TextChunk.id chunk;
        TextChunk.text := TextChunk.text chunk;
        TextChunk.embedding := embedding;
        TextChunk.source_email_id := TextChunk.source_email_id chunk;
        TextChunk.source_title := TextChunk.source_title chunk;
        TextChunk.source_sender := TextChunk.source_sender chunk;
        TextChunk.source_date := TextChunk.source_date chunk;
        TextChunk.chunk_index := TextChunk.chunk_index chunk;
        TextChunk.total_chunks := TextChunk.total_chunks chunk |} in
      let '(rest', w'') := generate_batch rest w' in
      (chunk :: rest', w'')
  end.

Definition has_embedding (c : TextChunk.t) : bool :=
  match TextChunk.embedding c with
  | Some _ => true
  | None => false
  end.

(** [EmbeddingPipeline.process], with the chunker of the pipeline. *)
Definition process (chunker : TextChunker) (contents : list CleanedContent.t)
    (w : W) : list TextChunk.t * W :=
  let all_chunks := flat_map (chunk chunker) contents in
  let '(embedded_chunks, w') := generate_batch all_chunks w in
  (filter has_embedding embedded_chunks, w').

End Embedder.

(** *** Vocabulary of the properties *)

(** The chunk with its embedding taken away. *)
Definition without_embedding (c : TextChunk.t) : TextChunk.t := {|
  TextChunk.id := TextChunk.id c;
  TextChunk.text := TextChunk.text c;
  TextChunk.embedding := None;
  TextChunk.source_email_id := TextChunk.source_email_id c;
  TextChunk.source_title := TextChunk.source_title c;
  TextChunk.source_sender := TextChunk.source_sender c;
  TextChunk.source_date := TextChunk.source_date c;
  TextChunk.chunk_index := TextChunk.chunk_index c;
  TextChunk.total_chunks := TextChunk.total_chunks c |}.

(** [l] is [m] with some elements left out. *)
Inductive subsequence {A : Type} : list A -> list A -> Prop :=
| subsequence_nil : subsequence [] []
| subsequence_skip (x : A) (l m : list A) :
    subsequence l m -> subsequence l (x :: m)
| subsequence_keep (x : A) (l m : list A) :
    subsequence l m -> subsequence (x :: l) (x :: m).

End Pipeline.

(** ** Further concrete inputs *)

Module MoreExamples.

Import Py Detector Examples.

(** The newsletter of the scenario as a mail client that writes capitals
    would show it. *)
Definition shouting_brew_issue : EmailMessage := {|
  id := "m-brew";
  subject := "ISSUE #214: THIS WEEK IN TECH";
  sender := "MORNING BREW <WEEKLY@MORNINGBREW.COM>";
  sender_email := "Weekly@MorningBrew.com";
  body_text := repeat_string "word " 800;
  headers := [("list-unsubscribe", "<mailto:leave@morningbrew.com>")]
|}.

(** An embedding service that always answers, with the length of the
    text as the only coordinate. *)
Definition always_embeds (text : string) (w : unit) : option (list Q) * unit :=
  (Some [inject_Z (len text)], w).

End MoreExamples.

(* ================================================================== *)
(** * Part II: properties *)
(* ================================================================== *)

(** ** The model on known inputs *)

Module Sanity.

Import Py Detector Chunker Examples.

(** Every pattern of the detector lies in the supported fragment. *)
Lemma source_patterns_compile :
  forallb (fun p => match Re.compile p with Some _ => true | None => false end)
    (newsletter_sender_patterns ++ newsletter_subject_patterns
     ++ promotional_subject_patterns ++ promotional_content_patterns
     ++ quality_subject_patterns ++ [price_pattern]) = true.
Proof. vm_compute. reflexivity. Qed.

Example search_issue_number :
  Re.search (Re.pat "issue\s*#?\d+") "issue #214: this week in tech" = Some true.
Proof. vm_compute. reflexivity. Qed.

Example search_word_boundary :
  Re.search (Re.pat "sale\b") "wholesale prices" = Some true
  /\ Re.search (Re.pat "sale\b") "salesforce" = Some false
  /\ Re.search price_pattern "wholesale deals" = Some false
  /\ Re.search price_pattern "50% off today only!" = Some true.
Proof. vm_compute. repeat split. Qed.

Example search_optional_group :
  Re.search (Re.pat "\$\d+(\.\d{2})?") "only $5.99 today" = Some true
  /\ Re.search (Re.pat "(new\s+)?(follower|like|comment|mention|reply)")
       "you have a new  follower" = Some true
  /\ Re.search (Re.pat "don\'?t\s+miss") "dont miss it" = Some true
  /\ Re.search (Re.pat "ends\s+(today|soon|tonight)") "ends tomorrow" = Some false.
Proof. vm_compute. repeat split. Qed.

Example string_builtins :
  split_ws "  two   words " = ["two"; "words"]
  /\ strip "  a b  " = "a b"
  /\ slice_from (-3) "hello" = "llo"
  /\ slice_from 0 "hello" = "hello"
  /\ slice_from (-9) "hello" = "hello"
  /\ split_char "@" "a@b@c" = ["a"; "b"; "c"]
  /\ lower "MiXed-Case_42" = "mixed-case_42"
  /\ str_of_nat 0 = "0" /\ str_of_nat 12 = "12".
Proof. vm_compute. repeat split. Qed.

Example extract_domain_examples :
  _extract_domain "weekly@morningbrew.com" = "morningbrew.com"
  /\ _extract_domain "<news@axios.com>" = "axios.com"
  /\ _extract_domain "no-at-sign" = ""
  /\ _extract_sender_name "Morning Brew <weekly@morningbrew.com>" = "morning brew".
Proof. vm_compute. repeat split. Qed.

Example sentences_of_paragraphs :
  _split_into_sentences
    ("One.  Two!" ++ String LF (String LF "three") ++ " four? ")
  = ["One."; "Two!"; "three four?"].
Proof. vm_compute. reflexivity. Qed.

(** The first scenario of the specification: retained. *)
Example morning_brew_is_retained :
  let r := detect default_detector (object_of morning_brew_issue) in
  is_newsletter r = true /\ is_promotional r = false
  /\ is_worth_reading r = true
  /\ (newsletter_confidence r == 0.95)%Q /\ (promotional_score r == 0)%Q
  /\ (quality_score r == 0.55)%Q.
Proof. vm_compute. repeat split. Qed.

(** The second scenario of the specification: rejected. *)
Example amazon_offer_is_rejected :
  let r := detect default_detector (object_of amazon_offer) in
  promotional_score r = 1%Q /\ is_promotional r = true
  /\ is_worth_reading r = false
  /\ reasons r = ["Blacklisted sender domain"].
Proof. vm_compute. repeat split. Qed.

End Sanity.

Module DetectorFacts.

Import Py Detector Examples.
Open Scope Q_scope.

(** ** [detect] is its [try] block *)

Lemma detect_unfold (self : NewsletterDetector) (email : email_object) :
  detect self email =
  let ns := fst (_calculate_newsletter_score email) in
  let ps := fst (_calculate_promotional_score email) in
  let qs := fst (_calculate_quality_score email) in
  {| is_newsletter := Qle_bool (newsletter_threshold self) ns;
     is_promotional := Qle_bool (promotional_threshold self) ps;
     is_worth_reading :=
       Qle_bool (newsletter_threshold self) ns
       && negb (Qle_bool (promotional_threshold self) ps)
       && Qle_bool (quality_threshold self) qs;
     newsletter_confidence := ns;
     promotional_score := ps;
     quality_score := qs;
     reasons := snd (_calculate_newsletter_score email)
                ++ snd (_calculate_promotional_score email)
                ++ snd (_calculate_quality_score email) |}.
Proof.
  unfold detect, detect_body.
  destruct (_calculate_newsletter_score email) as [ns nr].
  destruct (_calculate_promotional_score email) as [ps pr].
  destruct (_calculate_quality_score email) as [qs qr].
  reflexivity.
Qed.

Lemma Qle_bool_false_iff (x y : Q) : Qle_bool x y = false <-> y < x.
Proof.
  split; intro H.
  - apply Qnot_le_lt. intro Hle. apply Qle_bool_iff in Hle. congruence.
  - destruct (Qle_bool x y) eqn:E; [|reflexivity].
    apply Qle_bool_iff in E. exfalso. exact (Qlt_not_le _ _ H E).
Qed.

(** The acceptance rule, read off the verdict. *)
Lemma worth_reading_iff (self : NewsletterDetector) (email : email_object) :
  is_worth_reading (detect self email) = true <->
  newsletter_threshold self <= newsletter_confidence (detect self email)
  /\ promotional_score (detect self email) < promotional_threshold self
  /\ quality_threshold self <= quality_score (detect self email).
Proof.
  rewrite detect_unfold. cbn.
  rewrite !andb_true_iff, negb_true_iff, Qle_bool_false_iff, !Qle_bool_iff.
  tauto.
Qed.

(** ** The sort of [filter_newsletters] *)

Section SortDesc.

Context {A : Type} (key : A -> Q).

Lemma insert_desc_perm (x : A) (l : list A) :
  Permutation (insert_desc key x l) (x :: l).
Proof.
  induction l as [|y l IH]; cbn.
  - apply Permutation_refl.
  - destruct (Qle_bool (key y) (key x)).
    + apply Permutation_refl.
    + eapply perm_trans; [apply perm_skip, IH | apply perm_swap].
Qed.

Lemma sort_desc_perm (l : list A) : Permutation (sort_desc key l) l.
Proof.
  induction l as [|x l IH]; cbn.
  - apply perm_nil.
  - eapply perm_trans; [apply insert_desc_perm | apply perm_skip, IH].
Qed.

Lemma insert_desc_sorted (x : A) (l : list A) :
  StronglySorted (desc key) l -> StronglySorted (desc key) (insert_desc key x l).
Proof.
  induction l as [|y l IH]; intro Hs; cbn.
  - constructor; constructor.
  - inversion Hs as [|? ? Hl Hy]; subst.
    destruct (Qle_bool (key y) (key x)) eqn:E.
    + apply Qle_bool_iff in E.
      constructor; [exact Hs|].
      constructor; [exact E|].
      rewrite Forall_forall in Hy |- *. intros z Hz.
      unfold desc in *. eapply Qle_trans; [apply (Hy z Hz) | exact E].
    + apply Qle_bool_false_iff in E.
      constructor; [apply IH, Hl|].
      rewrite Forall_forall in Hy |- *. intros z Hz.
      apply (Permutation_in _ (insert_desc_perm x l)) in Hz.
      destruct Hz as [<-|Hz]; [apply Qlt_le_weak, E | apply Hy, Hz].
Qed.

Lemma sort_desc_sorted (l : list A) : StronglySorted (desc key) (sort_desc key l).
Proof.
  induction l as [|x l IH]; cbn.
  - constructor.
  - apply insert_desc_sorted, IH.
Qed.

Lemma insert_desc_with_key (q : Q) (x : A) (l : list A) :
  with_key key q (insert_desc key x l) = with_key key q (x :: l).
Proof.
  induction l as [|y l IH]; [reflexivity|].
  cbn [insert_desc].
  destruct (Qle_bool (key y) (key x)) eqn:E; [reflexivity|].
  apply Qle_bool_false_iff in E.
  unfold with_key in *. cbn [filter] in *. rewrite IH.
  destruct (Qeq_bool (key x) q) eqn:Ex; [|reflexivity].
  destruct (Qeq_bool (key y) q) eqn:Ey; [|reflexivity].
  apply Qeq_bool_iff in Ex, Ey. exfalso.
  rewrite Ex, <- Ey in E. exact (Qlt_irrefl _ E).
Qed.

Lemma sort_desc_with_key (q : Q) (l : list A) :
  with_key key q (sort_desc key l) = with_key key q l.
Proof.
  induction l as [|x l IH]; [reflexivity|].
  cbn [sort_desc]. rewrite insert_desc_with_key.
  unfold with_key in *. cbn [filter]. rewrite IH. reflexivity.
Qed.

End SortDesc.

(** ** The loop of [filter_newsletters] *)

Lemma accepted_filter (self : NewsletterDetector) (emails : list email_object)
    (quality_only : bool) :
  accepted self emails quality_only =
  map (fun email => (email, detect self email))
      (filter (kept self quality_only) emails).
Proof.
  induction emails as [|email rest IH]; [reflexivity|].
  cbn [accepted filter]. unfold kept at 1.
  destruct quality_only;
    match goal with |- context [if ?b then _ else _] => destruct b end;
    cbn [map]; rewrite IH; reflexivity.
Qed.

Lemma in_filter_newsletters (self : NewsletterDetector)
    (emails : list email_object) (quality_only : bool)
    (email : email_object) (r : DetectionResult) :
  In (email, r) (filter_newsletters self emails quality_only) <->
  In email emails /\ r = detect self email
  /\ kept self quality_only email = true.
Proof.
  unfold filter_newsletters.
  split.
  - intro H.
    apply (Permutation_in _ (sort_desc_perm _ _)) in H.
    rewrite accepted_filter in H. apply in_map_iff in H.
    destruct H as [e [Heq Hin]]. inversion Heq; subst.
    apply filter_In in Hin. tauto.
  - intros [Hin [-> Hk]].
    apply (Permutation_in _ (Permutation_sym (sort_desc_perm _ _))).
    rewrite accepted_filter. apply in_map_iff.
    exists email. split; [reflexivity|]. apply filter_In. tauto.
Qed.

(** ** Running a score function on a well-typed message *)

Lemma price_search (text : string) :
  Re.search price_pattern text = Some (pattern_hits text price_pattern).
Proof.
  unfold pattern_hits, Re.search.
  destruct (Re.compile price_pattern) eqn:E; [reflexivity|].
  vm_compute in E. discriminate E.
Qed.


(** ** The domain of an address *)

Lemma lower_app (a b : string) : lower (a ++ b) = (lower a ++ lower b)%string.
Proof.
  induction a as [|c a IH]; cbn; [reflexivity|]. rewrite IH. reflexivity.
Qed.

Lemma contains_char_app (c : ascii) (a b : string) :
  contains_char c (a ++ String c b) = true.
Proof.
  induction a as [|d a IH]; cbn.
  - rewrite Ascii.eqb_refl. reflexivity.
  - rewrite IH. apply orb_true_r.
Qed.

Lemma append_empty (s : string) : (s ++ EmptyString)%string = s.
Proof.
  induction s as [|c s IH]; cbn; [reflexivity|]. rewrite IH. reflexivity.
Qed.

Lemma append_snoc (a b : string) (c : ascii) :
  (snoc a c ++ b)%string = (a ++ String c b)%string.
Proof.
  unfold snoc. induction a as [|d a IH]; cbn; [reflexivity|].
  rewrite IH. reflexivity.
Qed.

Lemma truthy_app (a b : string) (c : ascii) :
  truthy (a ++ String c b) = true.
Proof. destruct a; reflexivity. Qed.

Lemma split_at_free (p : ascii -> bool) (s cur : string) :
  free_of p s = true -> split_at p s cur = [(cur ++ s)%string].
Proof.
  revert cur. induction s as [|c s IH]; intros cur Hfree; cbn in *.
  - rewrite append_empty. reflexivity.
  - apply andb_true_iff in Hfree. destruct Hfree as [Hc Hs].
    apply negb_true_iff in Hc. rewrite Hc, (IH _ Hs), append_snoc.
    reflexivity.
Qed.

Lemma split_at_nonempty (p : ascii -> bool) (s cur : string) :
  split_at p s cur <> [].
Proof.
  revert cur. induction s as [|c s IH]; intro cur; cbn.
  - discriminate.
  - destruct (p c); [discriminate | apply IH].
Qed.

Lemma split_at_last (p : ascii -> bool) (a d : string) (c : ascii) :
  p c = true -> free_of p d = true ->
  forall cur, last (split_at p (a ++ String c d) cur) EmptyString = d.
Proof.
  intros Hc Hd. induction a as [|x a IH]; intro cur; cbn [append split_at].
  - rewrite Hc, (split_at_free p d EmptyString Hd). reflexivity.
  - destruct (p x); [|apply IH].
    specialize (IH EmptyString).
    pose proof (split_at_nonempty p (a ++ String c d) EmptyString) as Hne.
    destruct (split_at p (a ++ String c d) EmptyString); [contradiction|exact IH].
Qed.

(** An address [local@domain] with a block-listed [domain] has that domain,
    whatever the local part is. *)
Lemma blocklisted_address_domain (local d : string) :
  In d blacklisted_domains ->
  _extract_domain (lower (local ++ "@" ++ d)) = d.
Proof.
  intro Hd.
  assert (Hfacts : lower d = d /\ free_of (Ascii.eqb "@") d = true
                   /\ strip_with (Ascii.eqb ">") d = d).
  { cbn in Hd.
    repeat (destruct Hd as [<-|Hd]; [vm_compute; repeat split|]).
    destruct Hd. }
  destruct Hfacts as [Hlow [Hfree Hstrip]].
  rewrite lower_app. cbn [append lower].
  change (lower_char "@") with "@"%char. rewrite Hlow.
  unfold _extract_domain, split_char.
  rewrite truthy_app, contains_char_app. cbn [negb].
  rewrite (split_at_last _ _ _ _ (Ascii.eqb_refl _) Hfree), Hlow.
  exact Hstrip.
Qed.

Ltac run_body :=
  cbv beta iota delta
    [bind ret when add_score append_reason return_ raise re_search
     try_pass_then_return getattr_str object_of content_length_step
     obj_subject obj_sender obj_sender_email obj_body_text obj_headers
     fst snd].

(** The early [return] of [_calculate_promotional_score]. *)
Lemma blocklisted_score (m : EmailMessage) :
  mem (sender_domain m) blacklisted_domains = true ->
  _calculate_promotional_score (object_of m) = (1, ["Blacklisted sender domain"]).
Proof.
  intro Hblock.
  unfold _calculate_promotional_score, promotional_body. run_body.
  unfold sender_domain in Hblock. rewrite Hblock. reflexivity.
Qed.

(** The same for an address written out: any local part, any case of it,
    in front of a block-listed domain. *)
Lemma blocklisted_address_scores_one (m : EmailMessage) (local d : string) :
  In d blacklisted_domains ->
  sender_email m = (local ++ "@" ++ d)%string ->
  _calculate_promotional_score (object_of m) = (1, ["Blacklisted sender domain"]).
Proof.
  intros Hd Haddr. apply blocklisted_score.
  unfold sender_domain. rewrite Haddr, (blocklisted_address_domain _ _ Hd).
  unfold mem. apply existsb_exists. exists d.
  split; [exact Hd | apply String.eqb_refl].
Qed.

(** C1. For every message and every configuration, the message is retained
    -- its verdict has [is_worth_reading] true, and so it is part of the
    output of [filter_newsletters(..., quality_only=True)] -- if and only if
    its newsletter score is at least [newsletter_threshold], its promotional
    score is strictly below [promotional_threshold], and its quality score
    is at least [quality_threshold]. *)
Theorem C1_retained_iff_three_thresholds :
  forall (self : NewsletterDetector) (emails : list email_object)
         (email : email_object),
    let r := detect self email in
    let passes :=
      newsletter_threshold self <= newsletter_confidence r
      /\ promotional_score r < promotional_threshold self
      /\ quality_threshold self <= quality_score r in
    (is_worth_reading r = true <-> passes)
    /\ (In (email, r) (filter_newsletters self emails true) <->
        In email emails /\ passes).
Proof.
  intros self emails email r passes. subst r passes.
  split.
  - apply worth_reading_iff.
  - rewrite in_filter_newsletters. unfold kept.
    rewrite worth_reading_iff. tauto.
Qed.



(** C6, as the code has it. [detect] never raises: its [try] block always
    reaches its [return], so the verdict is always the one assembled from
    the three scores.  An error inside a score function is absorbed by that
    function: when reading the sender address, the subject or the body
    raises, the promotional and the quality score are both 0 with no
    reasons, the message counts as promotional only under a threshold of 0
    or less, and no error description enters [reasons]. *)
Theorem C6_errors_absorbed_by_score_functions :
  forall (self : NewsletterDetector) (email : email_object),
    detect_body self email = inr (detect self email)
    /\ (raises (obj_sender_email email) || raises (obj_subject email)
        || raises (obj_body_text email) = true ->
        _calculate_promotional_score email = (0, [])
        /\ _calculate_quality_score email = (0, [])
        /\ promotional_score (detect self email) = 0
        /\ quality_score (detect self email) = 0
        /\ is_promotional (detect self email)
           = Qle_bool (promotional_threshold self) 0
        /\ reasons (detect self email) = snd (_calculate_newsletter_score email)).
Proof.
  intros self email. split.
  - unfold detect.
    destruct (detect_body self email) as [err|r] eqn:E; [|reflexivity].
    unfold detect_body in E.
    destruct (_calculate_newsletter_score email),
             (_calculate_promotional_score email),
             (_calculate_quality_score email). discriminate E.
  - intro Hraise.
    assert (Hp : _calculate_promotional_score email = (0, [])).
    { destruct email as [subj snd_ addr body hdrs]. cbn in Hraise.
      unfold _calculate_promotional_score, promotional_body.
      cbn [obj_sender_email obj_subject obj_body_text].
      destruct addr as [|[a|]|e1]; try reflexivity;
      destruct subj as [|[s|]|e2]; try reflexivity;
      destruct body as [|[b|]|e3]; try reflexivity; discriminate Hraise. }
    assert (Hq : _calculate_quality_score email = (0, [])).
    { destruct email as [subj snd_ addr body hdrs]. cbn in Hraise.
      unfold _calculate_quality_score, quality_body.
      cbn [obj_sender_email obj_subject obj_body_text].
      destruct addr as [|[a|]|e1]; try reflexivity;
      destruct subj as [|[s|]|e2]; try reflexivity;
      destruct body as [|[b|]|e3]; try reflexivity; discriminate Hraise. }
    rewrite detect_unfold, Hp, Hq. cbn.
    rewrite app_nil_r. repeat split; reflexivity.
Qed.

(** C6 as stated fails: reading the body of this newsletter raises, and
    the verdict is not the conservative one -- the message is a newsletter,
    is not promotional, has promotional score 0, and carries no error
    reason; with a quality threshold of 0 it is even retained. *)
Lemma C6_counterexample_unreadable_body :
  raises (obj_body_text unreadable_body) = true
  /\ is_newsletter (detect default_detector unreadable_body) = true
  /\ is_promotional (detect default_detector unreadable_body) = false
  /\ promotional_score (detect default_detector unreadable_body) = 0
  /\ reasons (detect default_detector unreadable_body)
     = ["Has unsubscribe header"; "Newsletter platform: morningbrew.com";
        "Newsletter subject pattern"]
  /\ (forall err, detect default_detector unreadable_body <> error_result err)
  /\ is_worth_reading (detect any_quality unreadable_body) = true.
Proof.
  repeat split; try (vm_compute; reflexivity).
  intros err H. apply (f_equal is_promotional) in H.
  vm_compute in H. discriminate H.
Qed.

(** The absorbed error at the same message. *)
Lemma C6_witness_unreadable_body :
  raises (obj_sender_email unreadable_body) || raises (obj_subject unreadable_body)
  || raises (obj_body_text unreadable_body) = true
  /\ promotional_score (detect default_detector unreadable_body) = 0
  /\ quality_score (detect default_detector unreadable_body) = 0.
Proof.
  assert (Hr : raises (obj_sender_email unreadable_body)
               || raises (obj_subject unreadable_body)
               || raises (obj_body_text unreadable_body) = true) by reflexivity.
  destruct (C6_errors_absorbed_by_score_functions default_detector unreadable_body)
    as [_ Habs].
  destruct (Habs Hr) as [_ [_ [Hp [Hq _]]]].
  repeat split; assumption.
Defined.




(** C9, as the code has it. The quality score is the sum of the allow-list
    term, the subject term and the body-length term, clamped to [0, 1]; the
    body-length term is +0.15 above 500 words, +0.10 above 200 and up to
    500, -0.20 below 100 -- where the words counted are those of the first
    3000 characters of the body, not of the whole body. *)
Theorem C9_body_length_term_of_first_3000_chars :
  forall m : EmailMessage,
    let q := fst (_calculate_quality_score (object_of m)) in
    q == Qmax (Qmin (whitelist_term m + quality_subject_term m
                     + body_length_term (counted_words m)) 1) 0
    /\ 0 <= q /\ q <= 1.
Proof.
  intros m q. subst q.
  assert (Heq : fst (_calculate_quality_score (object_of m))
                == Qmax (Qmin (whitelist_term m + quality_subject_term m
                               + body_length_term (counted_words m)) 1) 0).
  { unfold _calculate_quality_score, quality_body. run_body.
    unfold whitelist_term, quality_subject_term, hits_term, body_length_term,
      counted_words, sender_domain.
    set (wc := List.length (split_ws (take 3000 (body_text m)))).
    destruct (mem (_extract_domain (lower (sender_email m))) whitelisted_domains);
    destruct (_check_patterns (subject m) quality_subject_patterns) as [[] p1];
    destruct (500 <? wc)%nat; destruct (200 <? wc)%nat; destruct (wc <? 100)%nat;
    cbn [fst snd]; apply Q.max_compat; try reflexivity;
    apply Q.min_compat; try reflexivity; ring. }
  split; [exact Heq|].
  rewrite Heq. split.
  - apply Q.le_max_r.
  - apply Q.max_lub; [apply Q.le_min_r | discriminate].
Qed.

(** C9 as stated fails: the body has 600 words, more than 500, but only
    the 300 words of its first 3000 characters are counted, so the term
    added is 0.10, with the reason of the middle band. *)
Lemma C9_counterexample_long_words :
  List.length (split_ws (body_text long_words_letter)) = 600%nat
  /\ counted_words long_words_letter = 300%nat
  /\ whitelist_term long_words_letter = 0
  /\ quality_subject_term long_words_letter = 0
  /\ fst (_calculate_quality_score (object_of long_words_letter)) == 0.1
  /\ ~ fst (_calculate_quality_score (object_of long_words_letter)) == 0.15
  /\ snd (_calculate_quality_score (object_of long_words_letter))
     = ["Decent content length"].
Proof.
  repeat split; try (vm_compute; reflexivity).
  vm_compute. discriminate.
Qed.

(** C10. [filter_newsletters] orders the accepted pairs by quality score
    only, descending, and stably: the output is a rearrangement of the
    accepted pairs, no pair stands before one of higher quality score, and
    for every score [q] the pairs of that score come in the order in which
    their messages stand in the input list. *)
Theorem C10_filter_sorts_by_quality_stably :
  forall (self : NewsletterDetector) (emails : list email_object)
         (quality_only : bool),
    let key := fun x : email_object * DetectionResult => quality_score (snd x) in
    let out := filter_newsletters self emails quality_only in
    Permutation out (accepted self emails quality_only)
    /\ StronglySorted (fun x y => key y <= key x) out
    /\ forall q : Q,
         filter (fun x => Qeq_bool (key x) q) out =
         filter (fun x => Qeq_bool (key x) q)
           (map (fun email => (email, detect self email))
                (filter (kept self quality_only) emails)).
Proof.
  intros self emails quality_only key out. subst out.
  unfold filter_newsletters. fold key.
  split; [apply sort_desc_perm|].
  split; [apply (sort_desc_sorted key)|].
  intro q. rewrite <- accepted_filter.
  apply (sort_desc_with_key key).
Qed.

End DetectorFacts.

Module ChunkerFacts.

Import Py Chunker Examples.
Open Scope Z_scope.

Lemma map_enumerate_length {A B : Type} (f : nat -> A -> B) (i : nat) (l : list A) :
  List.length (map_enumerate f i l) = List.length l.
Proof.
  revert i. induction l as [|x l IH]; intro i; cbn; [reflexivity|].
  rewrite IH. reflexivity.
Qed.

Lemma map_enumerate_nth {A B : Type} (f : nat -> A -> B) (l : list A) :
  forall (i k : nat) (y : B),
    nth_error (map_enumerate f i l) k = Some y ->
    exists x, nth_error l k = Some x /\ y = f (i + k)%nat x.
Proof.
  induction l as [|x l IH]; intros i k y H.
  - destruct k; discriminate H.
  - destruct k as [|k]; cbn in H.
    + inversion H; subst. exists x. rewrite Nat.add_0_r. split; reflexivity.
    + apply IH in H. destruct H as [x' [Hx Hy]].
      exists x'. split; [exact Hx|].
      rewrite Hy. f_equal. lia.
Qed.

Lemma map_map_enumerate {A B C : Type} (g : B -> C) (f : nat -> A -> B)
    (i : nat) (l : list A) :
  map g (map_enumerate f i l) = map_enumerate (fun i x => g (f i x)) i l.
Proof.
  revert i. induction l as [|x l IH]; intro i; cbn; [reflexivity|].
  rewrite IH. reflexivity.
Qed.

(** The key of a window is a function of the source id, the position, the
    count and the text. *)
Lemma window_key_make_chunk (content : CleanedContent.t) (i total : nat)
    (chunk_text : string) :
  window_key (make_chunk content i total chunk_text) =
  ((CleanedContent.source_email_id content ++ "_" ++ str_of_nat i)%string,
   chunk_text, i, total).
Proof. reflexivity. Qed.

(** C3 fails on the code. With a window size of 40 and an overlap of 10, a
    text of three sentences, none longer than 34 characters, yields a
    second window of 45 characters: the 10 characters of overlap carried
    over from the first window, a space, and the whole third sentence.  The
    third sentence is added to the seeded window without a size test. *)
Theorem C3_seeded_window_exceeds_size :
  overlap small_chunker < chunk_size small_chunker
  /\ _split_into_sentences rainy_text
     = ["It rains."; "We stay."; "Tomorrow the sun will return here."]
  /\ Forall (fun sentence => len sentence <= chunk_size small_chunker)
            (_split_into_sentences rainy_text)
  /\ map TextChunk.text (chunk small_chunker (note rainy_text))
     = ["It rains. We stay.";
        ". We stay. Tomorrow the sun will return here."]
  /\ map (fun w => len (TextChunk.text w)) (chunk small_chunker (note rainy_text))
     = [18; 45]
  /\ exists w, In w (chunk small_chunker (note rainy_text))
               /\ len (TextChunk.text w) > chunk_size small_chunker.
Proof.
  split; [reflexivity|].
  split; [vm_compute; reflexivity|].
  split; [vm_compute; repeat constructor; discriminate|].
  split; [vm_compute; reflexivity|].
  split; [vm_compute; reflexivity|].
  exists (make_chunk (note rainy_text) 1 2
            ". We stay. Tomorrow the sun will return here.").
  split; [right; left; vm_compute; reflexivity | vm_compute; reflexivity].
Qed.

(** C4, as the code has it. Segmenting a document whose text is empty never
    fails; under a window size of 0 or more it returns one window, with
    empty text, index 0 and total 1; under a negative window size it
    returns no window. *)
Theorem C4_empty_text_gives_one_empty_window :
  forall (self : TextChunker) (content : CleanedContent.t),
    CleanedContent.text content = EmptyString ->
    chunk self content =
    if 0 <=? chunk_size self
    then [make_chunk content 0 1 EmptyString]
    else [].
Proof.
  intros self content Hempty.
  unfold chunk. rewrite Hempty. cbn [len String.length Z.of_nat].
  destruct (0 <=? chunk_size self); reflexivity.
Qed.

(** C4 as stated fails: under the default sizes the empty document yields
    a list of one window, whose text is empty. *)
Lemma C4_counterexample_default_sizes :
  chunk default_chunker (note EmptyString) <> []
  /\ map TextChunk.text (chunk default_chunker (note EmptyString)) = [EmptyString].
Proof. split; [vm_compute; discriminate | vm_compute; reflexivity]. Qed.

(** The single empty window under the default sizes. *)
Lemma C4_witness_empty_note :
  CleanedContent.text (note EmptyString) = EmptyString
  /\ chunk default_chunker (note EmptyString)
     = [make_chunk (note EmptyString) 0 1 EmptyString].
Proof.
  split; [reflexivity|].
  exact (C4_empty_text_gives_one_empty_window default_chunker
           (note EmptyString) eq_refl).
Defined.

(** C5, as the code has it. Constructing the chunker never fails.  A size
    that is given and is not 0 is stored as it is -- a negative one too, and
    an overlap at or above the window size too; a size that is missing or 0
    is replaced by the configured default. *)
Theorem C5_constructor_accepts_every_size :
  forall (cfg : config.t) (size lap : option Z),
    __init__ cfg size lap =
    inr {| chunk_size := or_default size (config.CHUNK_SIZE cfg);
           overlap := or_default lap (config.CHUNK_OVERLAP cfg) |}
    /\ (forall v d : Z, v <> 0 -> or_default (Some v) d = v)
    /\ (forall d : Z, or_default (Some 0) d = d /\ or_default None d = d).
Proof.
  intros cfg size lap. split; [reflexivity|]. split.
  - intros v d Hv. unfold or_default.
    destruct (v =? 0) eqn:E; [|reflexivity].
    apply Z.eqb_eq in E. contradiction.
  - intro d. split; reflexivity.
Qed.

(** C5 as stated fails: an overlap above the window size, a negative
    window size and a negative overlap are each accepted and stored. *)
Lemma C5_counterexample_overlap_above_size :
  __init__ config.defaults (Some 100) (Some 200)
  = inr {| chunk_size := 100; overlap := 200 |}
  /\ __init__ config.defaults (Some (-5)) (Some (-1))
     = inr {| chunk_size := -5; overlap := -1 |}.
Proof. split; reflexivity. Qed.

(** A size of 100 is stored as 100. *)
Lemma C5_witness_stored_as_given :
  100 <> 0
  /\ or_default (Some 100) (config.CHUNK_SIZE config.defaults) = 100.
Proof.
  assert (H : 100 <> 0) by discriminate.
  split; [exact H|].
  exact (proj1 (proj2 (C5_constructor_accepts_every_size
                         config.defaults (Some 100) (Some 200)))
               100 (config.CHUNK_SIZE config.defaults) H).
Defined.

(** C7. Segmentation is a function of the configuration, the text and the
    source id: two runs on documents with the same text and source id yield
    the same number of windows and, position by position, the same id, text
    and ordinals; and the window at position [i] has the id
    "<source id>_<i>", the index [i], and the length of the output as its
    total. *)
Theorem C7_segmentation_deterministic :
  forall (self : TextChunker) (first second : CleanedContent.t),
    CleanedContent.text first = CleanedContent.text second ->
    CleanedContent.source_email_id first = CleanedContent.source_email_id second ->
    map window_key (chunk self first) = map window_key (chunk self second)
    /\ List.length (chunk self first) = List.length (chunk self second)
    /\ forall (i : nat) (w : TextChunk.t),
         nth_error (chunk self first) i = Some w ->
         TextChunk.id w
         = (CleanedContent.source_email_id first ++ "_" ++ str_of_nat i)%string
         /\ TextChunk.chunk_index w = i
         /\ TextChunk.total_chunks w = List.length (chunk self first).
Proof.
  intros self first second Htext Hid.
  assert (Hkeys : map window_key (chunk self first)
                  = map window_key (chunk self second)).
  { unfold chunk. rewrite <- Htext.
    destruct (len (CleanedContent.text first) <=? chunk_size self).
    - cbn [map]. rewrite !window_key_make_chunk, Hid. reflexivity.
    - rewrite !map_map_enumerate.
      generalize (chunk_texts self (_split_into_sentences (CleanedContent.text first))).
      intro l. generalize (List.length l) as total. generalize 0%nat as i.
      induction l as [|x l IH]; intros i total; cbn; [reflexivity|].
      rewrite !window_key_make_chunk, Hid, IH. reflexivity. }
  split; [exact Hkeys|].
  split.
  - apply (f_equal (@List.length _)) in Hkeys.
    rewrite !length_map in Hkeys. exact Hkeys.
  - intros i w Hw. unfold chunk in *.
    destruct (len (CleanedContent.text first) <=? chunk_size self).
    + destruct i as [|i]; cbn in Hw.
      * inversion Hw; subst. cbn. repeat split; reflexivity.
      * destruct i; discriminate Hw.
    + rewrite map_enumerate_length.
      apply map_enumerate_nth in Hw. destruct Hw as [x [_ ->]].
      cbn. repeat split; reflexivity.
Qed.

(** Two runs on the same text, filed under different titles and senders. *)
Lemma C7_witness_rainy_note :
  CleanedContent.text (note rainy_text)
  = CleanedContent.text (forwarded_note rainy_text)
  /\ CleanedContent.source_email_id (note rainy_text)
     = CleanedContent.source_email_id (forwarded_note rainy_text)
  /\ map window_key (chunk small_chunker (note rainy_text))
     = map window_key (chunk small_chunker (forwarded_note rainy_text)).
Proof.
  split; [reflexivity|]. split; [reflexivity|].
  exact (proj1 (C7_segmentation_deterministic small_chunker
                  (note rainy_text) (forwarded_note rainy_text)
                  eq_refl eq_refl)).
Defined.

End ChunkerFacts.

(* ================================================================== *)
(** * Part III: further properties *)
(* ================================================================== *)

(** ** Facts about the string builtins *)

Module PyFacts.

Import Py ChunkPlan.

Lemma length_app (a b : string) :
  String.length (a ++ b) = (String.length a + String.length b)%nat.
Proof.
  induction a as [|c a IH]; cbn; [reflexivity|]. rewrite IH. reflexivity.
Qed.

Lemma len_app (a b : string) : len (a ++ b) = (len a + len b)%Z.
Proof. unfold len. rewrite length_app. lia. Qed.

Lemma len_nonneg (s : string) : (0 <= len s)%Z.
Proof. unfold len. lia. Qed.

Lemma truthy_len (s : string) : truthy s = true <-> (0 < len s)%Z.
Proof. unfold len. destruct s; cbn; split; intro H; try lia; congruence. Qed.

Lemma length_drop (n : nat) (s : string) :
  String.length (drop n s) = (String.length s - n)%nat.
Proof.
  revert s. induction n as [|n IH]; intro s.
  - destruct s; cbn; lia.
  - destruct s as [|c s]; cbn; [reflexivity|]. apply IH.
Qed.

Lemma length_take (n : nat) (s : string) :
  String.length (take n s) = Nat.min n (String.length s).
Proof.
  revert s. induction n as [|n IH]; intro s.
  - destruct s; reflexivity.
  - destruct s as [|c s]; cbn; [reflexivity|]. rewrite IH. reflexivity.
Qed.

(** [s[-k:]] for a positive [k] keeps the last [k] characters, or all of
    [s] when it has fewer. *)
Lemma len_slice_last (k : Z) (s : string) :
  (0 < k)%Z -> len (slice_from (- k) s) = Z.min k (len s).
Proof.
  intro Hk. unfold slice_from.
  destruct (- k <? 0)%Z eqn:E; [|apply Z.ltb_ge in E; lia].
  unfold len. rewrite length_drop. unfold len. lia.
Qed.

Lemma length_lstrip_le (p : ascii -> bool) (s : string) :
  (String.length (lstrip_with p s) <= String.length s)%nat.
Proof.
  induction s as [|c s IH]; cbn; [lia|]. destruct (p c); cbn; lia.
Qed.

Lemma length_rstrip_le (p : ascii -> bool) (s : string) :
  (String.length (rstrip_with p s) <= String.length s)%nat.
Proof.
  induction s as [|c s IH]; cbn; [lia|].
  destruct (negb (truthy (rstrip_with p s)) && p c); cbn; lia.
Qed.

Lemma len_strip_le (s : string) : (len (strip s) <= len s)%Z.
Proof.
  unfold len, strip, strip_with.
  pose proof (length_rstrip_le isspace (lstrip_with isspace s)).
  pose proof (length_lstrip_le isspace s). lia.
Qed.

Lemma append_nil_r (s : string) : (s ++ EmptyString)%string = s.
Proof.
  induction s as [|c s IH]; cbn; [reflexivity|]. rewrite IH. reflexivity.
Qed.

Lemma append_assoc (a b c : string) :
  ((a ++ b) ++ c)%string = (a ++ b ++ c)%string.
Proof.
  induction a as [|x a IH]; cbn; [reflexivity|]. rewrite IH. reflexivity.
Qed.

(** [' '.join] of a list grown by one element. *)
Lemma join_space_snoc (l : list string) (s : string) :
  join_space (l ++ [s]) =
  match l with
  | [] => s
  | _ :: _ => (join_space l ++ " " ++ s)%string
  end.
Proof.
  unfold join_space. induction l as [|x l IH]; [reflexivity|].
  destruct l as [|y l].
  - reflexivity.
  - change (String.concat " " ((x :: y :: l) ++ [s]))
      with (x ++ " " ++ String.concat " " ((y :: l) ++ [s]))%string.
    rewrite IH.
    change (String.concat " " (x :: y :: l))
      with (x ++ " " ++ String.concat " " (y :: l))%string.
    rewrite !append_assoc. reflexivity.
Qed.

Lemma len_join_snoc (l : list string) (s : string) :
  len (join_space (l ++ [s])) =
  match l with
  | [] => len s
  | _ :: _ => (len (join_space l) + 1 + len s)%Z
  end.
Proof.
  rewrite join_space_snoc. destruct l; [reflexivity|].
  rewrite !len_app. change (len " ") with 1%Z. lia.
Qed.

(** *** Ink: characters that are not whitespace *)

Lemma has_ink_app (a b : string) :
  has_ink (a ++ b) = has_ink a || has_ink b.
Proof.
  induction a as [|c a IH]; cbn; [reflexivity|].
  rewrite IH. apply orb_assoc.
Qed.

Lemma has_ink_snoc (s : string) (c : ascii) :
  has_ink (snoc s c) = has_ink s || negb (isspace c).
Proof. unfold snoc. rewrite has_ink_app. cbn. rewrite orb_false_r. reflexivity. Qed.

Lemma has_ink_truthy (s : string) : has_ink s = true -> truthy s = true.
Proof. destruct s; [discriminate|reflexivity]. Qed.

Lemma has_ink_lstrip (s : string) :
  has_ink (lstrip_with isspace s) = has_ink s
  /\ truthy (lstrip_with isspace s) = has_ink s.
Proof.
  induction s as [|c s [IH1 IH2]]; cbn; [split; reflexivity|].
  destruct (isspace c) eqn:E; cbn.
  - split; assumption.
  - rewrite E. split; reflexivity.
Qed.

Lemma has_ink_rstrip (s : string) :
  has_ink (rstrip_with isspace s) = has_ink s
  /\ truthy (rstrip_with isspace s) = has_ink s.
Proof.
  induction s as [|c s [IH1 IH2]]; cbn; [split; reflexivity|].
  rewrite IH2.
  destruct (isspace c) eqn:E; destruct (has_ink s) eqn:Hs; cbn;
    rewrite ?E, ?IH1, ?Hs; split; reflexivity.
Qed.

(** [s.strip()] is empty exactly when [s] holds nothing but whitespace. *)
Lemma truthy_strip (s : string) : truthy (strip s) = has_ink s.
Proof.
  unfold strip, strip_with.
  rewrite (proj2 (has_ink_rstrip _)). apply has_ink_lstrip.
Qed.

Lemma has_ink_strip (s : string) : has_ink (strip s) = has_ink s.
Proof.
  unfold strip, strip_with.
  rewrite (proj1 (has_ink_rstrip _)). apply has_ink_lstrip.
Qed.

Lemma strip_blank (s : string) : has_ink s = false -> strip s = EmptyString.
Proof.
  intro H. rewrite <- truthy_strip in H. destruct (strip s); [reflexivity|discriminate].
Qed.

Lemma rstrip_idem (p : ascii -> bool) (s : string) :
  rstrip_with p (rstrip_with p s) = rstrip_with p s.
Proof.
  induction s as [|c s IH]; [reflexivity|]. cbn [rstrip_with].
  destruct (negb (truthy (rstrip_with p s)) && p c) eqn:E; [reflexivity|].
  cbn [rstrip_with]. rewrite IH, E. reflexivity.
Qed.

(** What [lstrip] leaves starts with a character that is kept. *)
Lemma lstrip_head (p : ascii -> bool) (s : string) :
  match lstrip_with p s with
  | EmptyString => True
  | String c _ => p c = false
  end.
Proof.
  induction s as [|c s IH]; cbn; [exact I|].
  destruct (p c) eqn:E; [exact IH|exact E].
Qed.

Lemma rstrip_cons_kept (p : ascii -> bool) (c : ascii) (t : string) :
  p c = false -> rstrip_with p (String c t) = String c (rstrip_with p t).
Proof. intro H. cbn [rstrip_with]. rewrite H, andb_false_r. reflexivity. Qed.

Lemma strip_idem (s : string) : strip (strip s) = strip s.
Proof.
  unfold strip, strip_with.
  pose proof (lstrip_head isspace s) as Hhead.
  destruct (lstrip_with isspace s) as [|c t]; [reflexivity|].
  rewrite (rstrip_cons_kept _ _ _ Hhead).
  cbn [lstrip_with]. rewrite Hhead.
  rewrite (rstrip_cons_kept _ _ _ Hhead), rstrip_idem. reflexivity.
Qed.

Lemma has_ink_join (l : list string) :
  has_ink (join_space l) = existsb has_ink l.
Proof.
  unfold join_space. induction l as [|x l IH]; [reflexivity|].
  destruct l as [|y l].
  - cbn. rewrite orb_false_r. reflexivity.
  - change (String.concat " " (x :: y :: l))
      with (x ++ " " ++ String.concat " " (y :: l))%string.
    rewrite !has_ink_app, IH. cbn [existsb has_ink].
    change (has_ink " ") with false. rewrite orb_false_l. reflexivity.
Qed.

End PyFacts.

(** ** How [chunk] builds its windows *)

Module ChunkerStructure.

Import Py Chunker ChunkPlan PyFacts Examples.
Open Scope Z_scope.

Lemma len_next_seed (self : TextChunker) (current : list string) :
  0 < overlap self -> len (next_seed self current) <= overlap self.
Proof.
  intro Hpos. unfold next_seed.
  set (text := if (2 <=? List.length current)%nat then _ else _).
  destruct (len text >? overlap self) eqn:E.
  - rewrite len_slice_last by exact Hpos. lia.
  - rewrite Z.gtb_ltb in E. apply Z.ltb_ge in E. exact E.
Qed.

Lemma is_suffix_refl (a : string) : is_suffix a a.
Proof. exists EmptyString. reflexivity. Qed.

Lemma is_suffix_empty (b : string) : is_suffix EmptyString b.
Proof. exists b. rewrite append_nil_r. reflexivity. Qed.

Lemma is_suffix_trans (a b c : string) :
  is_suffix a b -> is_suffix b c -> is_suffix a c.
Proof.
  intros [f1 ->] [f2 ->]. exists (f2 ++ f1)%string.
  rewrite append_assoc. reflexivity.
Qed.

Lemma is_suffix_drop (n : nat) (s : string) : is_suffix (drop n s) s.
Proof.
  revert s. induction n as [|n IH]; intro s.
  - destruct s; apply is_suffix_refl.
  - destruct s as [|c s]; [apply is_suffix_refl|].
    cbn [drop]. destruct (IH s) as [front Hs].
    exists (String c front). cbn. rewrite <- Hs. reflexivity.
Qed.

Lemma is_suffix_slice_from (i : Z) (s : string) : is_suffix (slice_from i s) s.
Proof. unfold slice_from. destruct (i <? 0); apply is_suffix_drop. Qed.

Lemma is_suffix_join_tail (x : string) (l : list string) :
  is_suffix (join_space l) (join_space (x :: l)).
Proof.
  destruct l as [|y l].
  - apply is_suffix_empty.
  - exists (x ++ " ")%string.
    change (join_space (x :: y :: l)) with (x ++ " " ++ join_space (y :: l))%string.
    rewrite append_assoc. reflexivity.
Qed.

Lemma is_suffix_join_skipn (n : nat) (l : list string) :
  is_suffix (join_space (skipn n l)) (join_space l).
Proof.
  revert l. induction n as [|n IH]; intro l.
  - apply is_suffix_refl.
  - destruct l as [|x l]; [apply is_suffix_refl|].
    cbn [skipn]. eapply is_suffix_trans; [apply IH|apply is_suffix_join_tail].
Qed.

(** The seed of the next window is what the current window ends with. *)
Lemma is_suffix_next_seed (self : TextChunker) (current : list string) :
  is_suffix (next_seed self current) (join_space current).
Proof.
  unfold next_seed.
  set (text := if (2 <=? List.length current)%nat then _ else _).
  assert (Htext : is_suffix text (join_space current)).
  { subst text. destruct (2 <=? List.length current)%nat.
    - apply is_suffix_join_skipn.
    - apply is_suffix_empty. }
  destruct (len text >? overlap self); [|exact Htext].
  eapply is_suffix_trans; [apply is_suffix_slice_from|exact Htext].
Qed.

Lemma last_nonempty_default {A : Type} (x : A) (l : list A) (d d' : A) :
  last (x :: l) d = last (x :: l) d'.
Proof.
  revert x. induction l as [|y l IH]; intro x; [reflexivity|].
  change (last (x :: y :: l) d) with (last (y :: l) d).
  change (last (x :: y :: l) d') with (last (y :: l) d').
  apply IH.
Qed.

Lemma chained_app (before : string) (plans : list (string * list string))
    (p : string * list string) :
  chained before plans ->
  is_suffix (fst p) (last (map render plans) before) ->
  chained before (plans ++ [p]).
Proof.
  revert before. induction plans as [|q plans IH]; intros before Hc Hs.
  - cbn in *. split; [exact Hs|exact I].
  - cbn [app chained] in *. destruct Hc as [Hq Hc].
    split; [exact Hq|]. apply IH; [exact Hc|].
    destruct plans as [|r plans]; [exact Hs|].
    cbn [map] in *.
    rewrite (last_nonempty_default _ _ (render q) before).
    exact Hs.
Qed.

Lemma last_map_render_app (plans : list (string * list string))
    (p : string * list string) (d : string) :
  last (map render (plans ++ [p])) d = render p.
Proof. rewrite map_app. apply last_last. Qed.

Lemma tracks_step (self : TextChunker) (done : list string) (st : loop_state)
    (plans : list (string * list string)) (seed : string) (units : list string)
    (sentence : string) :
  tracks self done st plans seed units ->
  exists plans' seed' units',
    units' <> []
    /\ tracks self (done ++ [sentence]) (chunk_step self st sentence)
         plans' seed' units'.
Proof.
  intros (Hch & Hcur & Hdone & Hne & Hseed & Hfirst & Hchain & Hsuf & Hlap).
  unfold chunk_step.
  destruct ((current_length st + len sentence >? chunk_size self)
            && negb (Nat.eqb (List.length (current_chunk st)) 0)) eqn:Hflush.
  - apply andb_true_iff in Hflush. destruct Hflush as [_ Hnonempty].
    assert (Hunits : units <> []).
    { intro Hu. rewrite (Hseed Hu) in Hcur. subst units.
      rewrite Hcur in Hnonempty. discriminate Hnonempty. }
    fold (next_seed self (current_chunk st)).
    exists (plans ++ [(seed, units)]), (next_seed self (current_chunk st)),
           [sentence].
    split; [discriminate|].
    unfold tracks. cbn [chunks current_chunk current_length].
    split; [|split; [|split; [|split; [|split; [|split; [|split; [|split]]]]]]].
    + rewrite map_app, Hch. cbn [map].
      change (render (seed, units)) with (join_space (seed_list seed ++ units)).
      rewrite Hcur. reflexivity.
    + reflexivity.
    + rewrite map_app, concat_app.
      change (List.concat (map snd [(seed, units)])) with (units ++ []).
      rewrite app_nil_r, Hdone. reflexivity.
    + apply Forall_app. split; [exact Hne|]. constructor; [exact Hunits|constructor].
    + discriminate.
    + rewrite map_app. destruct plans as [|p plans]; exact Hfirst.
    + apply chained_app; [exact Hchain|exact Hsuf].
    + rewrite last_map_render_app.
      change (render (seed, units)) with (join_space (seed_list seed ++ units)).
      rewrite <- Hcur. apply is_suffix_next_seed.
    + intro Hpos. split; [apply len_next_seed; exact Hpos|].
      apply Forall_app. split; [apply Hlap; exact Hpos|].
      constructor; [apply Hlap; exact Hpos|constructor].
  - exists plans, seed, (units ++ [sentence]).
    split; [destruct units; discriminate|].
    unfold tracks. cbn [chunks current_chunk current_length].
    split; [|split; [|split; [|split; [|split; [|split; [|split; [|split]]]]]]].
    + exact Hch.
    + rewrite Hcur, app_assoc. reflexivity.
    + rewrite app_assoc, Hdone. reflexivity.
    + exact Hne.
    + intro H. destruct units; discriminate H.
    + exact Hfirst.
    + exact Hchain.
    + exact Hsuf.
    + exact Hlap.
Qed.

Lemma tracks_loop (self : TextChunker) (sentences : list string) :
  forall (done : list string) (st : loop_state)
         (plans : list (string * list string)) (seed : string)
         (units : list string),
    tracks self done st plans seed units ->
    exists plans' seed' units',
      (sentences <> [] -> units' <> [])
      /\ (sentences = [] -> units' = units)
      /\ tracks self (done ++ sentences)
           (fold_left (chunk_step self) sentences st) plans' seed' units'.
Proof.
  induction sentences as [|s rest IH]; intros done st plans seed units Ht.
  - exists plans, seed, units. rewrite app_nil_r.
    split; [intro H; contradiction|]. split; [reflexivity|exact Ht].
  - destruct (tracks_step self done st plans seed units s Ht)
      as (plans1 & seed1 & units1 & Hne1 & Ht1).
    destruct (IH _ _ _ _ _ Ht1) as (plans2 & seed2 & units2 & Hne2 & Hsame & Ht2).
    exists plans2, seed2, units2.
    split.
    + intros _. destruct rest as [|r rest'].
      * rewrite (Hsame eq_refl). exact Hne1.
      * apply Hne2. discriminate.
    + split; [discriminate|].
      cbn [fold_left]. rewrite <- app_assoc in Ht2. exact Ht2.
Qed.

(** The windows of [chunk_texts], as plans: every sentence is a unit of
    exactly one plan, in order; no plan is without a unit; the first plan
    has no seed and every later seed is what the plan before it ends with;
    under a positive overlap no seed is longer than the overlap. *)
Lemma chunk_texts_plans (self : TextChunker) (sentences : list string) :
  exists plans : list (string * list string),
    chunk_texts self sentences = map render plans
    /\ List.concat (map snd plans) = sentences
    /\ Forall (fun p : string * list string => snd p <> []) plans
    /\ chained EmptyString plans
    /\ (0 < overlap self ->
        Forall (fun p : string * list string => len (fst p) <= overlap self)
               plans).
Proof.
  assert (Hinit : tracks self []
                    {| chunks := []; current_chunk := []; current_length := 0 |}
                    [] EmptyString []).
  { unfold tracks. cbn.
    repeat split; try constructor; try apply is_suffix_refl. lia. }
  destruct (tracks_loop self sentences _ _ _ _ _ Hinit)
    as (plans & seed & units & Hne & Hsame & Ht).
  destruct Ht as (Hch & Hcur & Hdone & Hnep & Hseed & Hfirst & Hchain & Hsuf & Hlap).
  cbn [app] in Hdone.
  unfold chunk_texts.
  destruct (current_chunk (fold_left (chunk_step self) sentences _)) as [|c cs] eqn:Ecur.
  - exists plans.
    assert (Hu : units = []).
    { destruct units as [|u us]; [reflexivity|].
      destruct (seed_list seed); discriminate Hcur. }
    subst units. rewrite app_nil_r in Hdone.
    split; [exact Hch|]. split; [exact Hdone|]. split; [exact Hnep|].
    split; [exact Hchain|]. intro Hpos. apply Hlap. exact Hpos.
  - exists (plans ++ [(seed, units)]).
    assert (Hu : units <> []).
    { intro Hu. rewrite Hu, (Hseed Hu) in Hcur. discriminate Hcur. }
    split; [|split; [|split; [|split]]].
    + rewrite map_app, Hch. cbn [map].
      change (render (seed, units)) with (join_space (seed_list seed ++ units)).
      rewrite <- Hcur. reflexivity.
    + rewrite map_app, concat_app.
      change (List.concat (map snd [(seed, units)])) with (units ++ []).
      rewrite app_nil_r. exact Hdone.
    + apply Forall_app. split; [exact Hnep|]. constructor; [exact Hu|constructor].
    + apply chained_app; [exact Hchain|exact Hsuf].
    + intro Hpos. apply Forall_app. split; [apply Hlap; exact Hpos|].
      constructor; [apply Hlap; exact Hpos|constructor].
Qed.

(** *** The sentences *)

Lemma split_after_terminal_blank (s : string) :
  forall (cur : string) (prev : option ascii) (in_gap : bool),
    has_ink s = false -> has_ink cur = false ->
    Forall (fun piece => has_ink piece = false)
           (split_after_terminal s cur prev in_gap).
Proof.
  induction s as [|c s IH]; intros cur prev in_gap Hs Hcur; cbn.
  - constructor; [exact Hcur|constructor].
  - cbn in Hs. apply orb_false_iff in Hs. destruct Hs as [Hc Hs].
    apply negb_false_iff in Hc. rewrite Hc.
    assert (Hsnoc : has_ink (snoc cur c) = false).
    { rewrite has_ink_snoc, Hcur, Hc. reflexivity. }
    destruct in_gap; [apply IH; assumption|].
    match goal with |- context [if ?b then _ else _] => destruct b end.
    + constructor; [exact Hcur|]. apply IH; [exact Hs|reflexivity].
    + apply IH; assumption.
Qed.

Lemma split_blank_line_two (a b : ascii) (s cur : string) :
  split_blank_line (String a (String b s)) cur =
  if Ascii.eqb a LF && Ascii.eqb b LF
  then cur :: split_blank_line s EmptyString
  else split_blank_line (String b s) (snoc cur a).
Proof. reflexivity. Qed.

Lemma split_blank_line_blank (s : string) :
  forall cur : string,
    has_ink s = false -> has_ink cur = false ->
    Forall (fun piece => has_ink piece = false) (split_blank_line s cur).
Proof.
  assert (H : forall n s, (String.length s <= n)%nat -> forall cur,
             has_ink s = false -> has_ink cur = false ->
             Forall (fun piece => has_ink piece = false) (split_blank_line s cur)).
  { clear s. induction n as [|n IH]; intros s Hn cur Hs Hcur.
    - destruct s; [|cbn in Hn; lia]. cbn. constructor; [exact Hcur|constructor].
    - destruct s as [|a s]; [cbn; constructor; [exact Hcur|constructor]|].
      cbn in Hs. apply orb_false_iff in Hs. destruct Hs as [Ha Hs].
      apply negb_false_iff in Ha.
      assert (Hsnoc : has_ink (snoc cur a) = false).
      { rewrite has_ink_snoc, Hcur, Ha. reflexivity. }
      cbn in Hn. destruct s as [|b s].
      + cbn. constructor; [exact Hsnoc|constructor].
      + rewrite split_blank_line_two.
        destruct (Ascii.eqb a LF && Ascii.eqb b LF).
        * constructor; [exact Hcur|]. apply IH; [cbn in *; lia| |reflexivity].
          cbn in Hs. apply orb_false_iff in Hs. tauto.
        * apply IH; [cbn in *; lia|exact Hs|exact Hsnoc]. }
  intros cur. apply (H (String.length s) s (Nat.le_refl _)).
Qed.

(** A text of nothing but whitespace has no sentences. *)
Lemma blank_text_no_sentences (text : string) :
  has_ink text = false -> _split_into_sentences text = [].
Proof.
  intro Hblank. unfold _split_into_sentences.
  set (pieces := flat_map _ _).
  assert (Hpieces : Forall (fun piece => has_ink piece = false) pieces).
  { subst pieces.
    pose proof (split_after_terminal_blank text EmptyString None false
                  Hblank eq_refl) as Hfirst.
    induction Hfirst as [|x l Hx _ IH]; [constructor|].
    cbn [flat_map]. apply Forall_app. split; [|exact IH].
    destruct (contains _ x).
    - apply split_blank_line_blank; [exact Hx|reflexivity].
    - constructor; [exact Hx|constructor]. }
  induction Hpieces as [|x l Hx _ IH]; [reflexivity|].
  cbn [map filter]. rewrite (strip_blank x Hx). exact IH.
Qed.

(** The windows of the long path are the stripped texts of the loop. *)
Lemma chunk_long_texts (self : TextChunker) (content : CleanedContent.t) :
  (len (CleanedContent.text content) <=? chunk_size self) = false ->
  map TextChunk.text (chunk self content) =
  map strip (chunk_texts self (_split_into_sentences (CleanedContent.text content))).
Proof.
  intro Hlong. unfold chunk. rewrite Hlong.
  rewrite ChunkerFacts.map_map_enumerate. cbn [make_chunk TextChunk.text].
  generalize (chunk_texts self (_split_into_sentences (CleanedContent.text content))).
  intro l. generalize 0%nat.
  induction l as [|x l IH]; intro i; cbn; [reflexivity|].
  rewrite IH. reflexivity.
Qed.

(** *** The size of a window *)

Lemma chunk_step_bound (self : TextChunker) (most : Z) (st : loop_state)
    (sentence : string) :
  let bound := Z.max (chunk_size self + 1) (overlap self + 1 + most) in
  0 < overlap self ->
  len sentence <= most ->
  Forall (fun c => len c <= bound) (chunks st)
  /\ len (join_space (current_chunk st)) <= current_length st
  /\ (current_chunk st <> [] -> len (join_space (current_chunk st)) <= bound) ->
  let st' := chunk_step self st sentence in
  Forall (fun c => len c <= bound) (chunks st')
  /\ len (join_space (current_chunk st')) <= current_length st'
  /\ (current_chunk st' <> [] -> len (join_space (current_chunk st')) <= bound).
Proof.
  intros bound Hpos Hlen (Hchunks & Hcl & Hb) st'. subst st'.
  pose proof (len_nonneg sentence) as Hs0.
  unfold chunk_step.
  destruct ((current_length st + len sentence >? chunk_size self)
            && negb (Nat.eqb (List.length (current_chunk st)) 0)) eqn:Hflush.
  - fold (next_seed self (current_chunk st)).
    pose proof (len_next_seed self (current_chunk st) Hpos) as Hseed.
    pose proof (len_nonneg (next_seed self (current_chunk st))) as Hseed0.
    apply andb_true_iff in Hflush. destruct Hflush as [_ Hne].
    assert (Hcur : current_chunk st <> []).
    { intro E. rewrite E in Hne. discriminate Hne. }
    specialize (Hb Hcur).
    cbn [chunks current_chunk current_length].
    split; [apply Forall_app; split;
            [exact Hchunks | constructor; [exact Hb|constructor]]|].
    rewrite len_join_snoc.
    destruct (truthy (next_seed self (current_chunk st))).
    + change (join_space [next_seed self (current_chunk st)])
        with (next_seed self (current_chunk st)).
      subst bound. lia.
    + subst bound. lia.
  - cbn [chunks current_chunk current_length].
    split; [exact Hchunks|].
    rewrite len_join_snoc.
    destruct (current_chunk st) as [|c cs] eqn:Ecur.
    + change (join_space []) with EmptyString in Hcl.
      change (len EmptyString) with 0 in Hcl. subst bound. lia.
    + cbn [List.length Nat.eqb negb] in Hflush.
      rewrite andb_true_r in Hflush.
      rewrite Z.gtb_ltb in Hflush. apply Z.ltb_ge in Hflush.
      assert (Hb' : len (join_space (c :: cs)) <= bound)
        by (apply Hb; discriminate).
      subst bound. lia.
Qed.

Lemma chunk_texts_bound (self : TextChunker) (most : Z) (sentences : list string) :
  0 < overlap self ->
  Forall (fun sentence => len sentence <= most) sentences ->
  Forall (fun c => len c <= Z.max (chunk_size self + 1) (overlap self + 1 + most))
         (chunk_texts self sentences).
Proof.
  intros Hpos Hall.
  set (bound := Z.max (chunk_size self + 1) (overlap self + 1 + most)).
  assert (Hloop : forall st,
             Forall (fun c => len c <= bound) (chunks st)
             /\ len (join_space (current_chunk st)) <= current_length st
             /\ (current_chunk st <> [] ->
                 len (join_space (current_chunk st)) <= bound) ->
             let st' := fold_left (chunk_step self) sentences st in
             Forall (fun c => len c <= bound) (chunks st')
             /\ len (join_space (current_chunk st')) <= current_length st'
             /\ (current_chunk st' <> [] ->
                 len (join_space (current_chunk st')) <= bound)).
  { induction Hall as [|x l Hx _ IH]; intros st Hst; [exact Hst|].
    cbn [fold_left]. apply IH.
    exact (chunk_step_bound self most st x Hpos Hx Hst). }
  unfold chunk_texts.
  set (init := {| chunks := []; current_chunk := []; current_length := 0 |}).
  assert (Hinit : Forall (fun c => len c <= bound) (chunks init)
                  /\ len (join_space (current_chunk init)) <= current_length init
                  /\ (current_chunk init <> [] ->
                      len (join_space (current_chunk init)) <= bound)).
  { subst init. cbn [chunks current_chunk current_length].
    split; [constructor|]. split; [cbn; lia|]. intro H. contradiction. }
  destruct (Hloop init Hinit) as (Hchunks & _ & Hb).
  destruct (current_chunk (fold_left (chunk_step self) sentences init)) eqn:E.
  - exact Hchunks.
  - apply Forall_app. split; [exact Hchunks|].
    constructor; [apply Hb; discriminate|constructor].
Qed.

End ChunkerStructure.

(** ** Further properties of [TextChunker] *)

Module ChunkerMore.

Import Py Chunker ChunkPlan PyFacts ChunkerStructure Examples.
Open Scope Z_scope.

(** Every sentence [_split_into_sentences] returns is non-empty and
    neither starts nor ends with whitespace: stripping it again changes
    nothing. *)
Theorem sentences_are_stripped_and_nonempty :
  forall text : string,
    Forall (fun sentence =>
              truthy sentence = true /\ strip sentence = sentence
              /\ has_ink sentence = true)
           (_split_into_sentences text).
Proof.
  intro text. unfold _split_into_sentences.
  set (pieces := flat_map _ _). clearbody pieces.
  apply Forall_forall. intros sentence Hin.
  apply filter_In in Hin. destruct Hin as [Hin Htruthy].
  apply in_map_iff in Hin. destruct Hin as [piece [<- _]].
  split; [exact Htruthy|]. split; [apply strip_idem|].
  rewrite has_ink_strip, <- truthy_strip. exact Htruthy.
Qed.

(** No sentence is dropped.  When the text is longer than the window size,
    the windows are, in order, the stripped joins of a seed and one or more
    sentences; the sentences of all windows, seeds left aside, are exactly
    the sentences of the text in their order; the first window has no
    seed, and every later seed is what the window before it ends with;
    under a positive overlap no seed is longer than the overlap. *)
Theorem chunk_keeps_every_sentence :
  forall (self : TextChunker) (content : CleanedContent.t),
    chunk_size self < len (CleanedContent.text content) ->
    exists plans : list (string * list string),
      map TextChunk.text (chunk self content)
      = map (fun p => strip (render p)) plans
      /\ List.concat (map snd plans)
         = _split_into_sentences (CleanedContent.text content)
      /\ Forall (fun p : string * list string => snd p <> []) plans
      /\ chained EmptyString plans
      /\ (0 < overlap self ->
          Forall (fun p : string * list string => len (fst p) <= overlap self)
                 plans).
Proof.
  intros self content Hlong.
  assert (Hleb : (len (CleanedContent.text content) <=? chunk_size self) = false)
    by (apply Z.leb_gt; exact Hlong).
  destruct (chunk_texts_plans self
              (_split_into_sentences (CleanedContent.text content)))
    as (plans & Htexts & Hcover & Hunits & Hchain & Hseeds).
  exists plans.
  split; [|tauto].
  rewrite (chunk_long_texts self content Hleb), Htexts, map_map. reflexivity.
Qed.

(** The three sentences of the rainy note in two windows, the second one
    seeded with the last ten characters of the first. *)
Lemma chunk_keeps_every_sentence_witness :
  chunk_size small_chunker < len (CleanedContent.text (note rainy_text))
  /\ exists plans : list (string * list string),
       map TextChunk.text (chunk small_chunker (note rainy_text))
       = map (fun p => strip (render p)) plans
       /\ List.concat (map snd plans) = _split_into_sentences rainy_text.
Proof.
  assert (Hlong : chunk_size small_chunker
                  < len (CleanedContent.text (note rainy_text)))
    by (vm_compute; reflexivity).
  split; [exact Hlong|].
  destruct (chunk_keeps_every_sentence small_chunker (note rainy_text) Hlong)
    as (plans & Htexts & Hcover & _).
  exists plans. split; [exact Htexts|exact Hcover].
Defined.

(** The size a window can reach.  Under a positive overlap, when no
    sentence of the text is longer than [most], no window is longer than
    the larger of [chunk_size + 1] and [overlap + 1 + most]. *)
Theorem chunk_window_size_bound :
  forall (self : TextChunker) (content : CleanedContent.t) (most : Z),
    0 < overlap self ->
    Forall (fun sentence => len sentence <= most)
           (_split_into_sentences (CleanedContent.text content)) ->
    Forall (fun w => len (TextChunk.text w)
                     <= Z.max (chunk_size self + 1) (overlap self + 1 + most))
           (chunk self content).
Proof.
  intros self content most Hpos Hall.
  destruct (len (CleanedContent.text content) <=? chunk_size self) eqn:Hleb.
  - unfold chunk. rewrite Hleb. apply Z.leb_le in Hleb.
    constructor; [cbn [make_chunk TextChunk.text]; lia|constructor].
  - pose proof (chunk_texts_bound self most _ Hpos Hall) as Hbound.
    pose proof (chunk_long_texts self content Hleb) as Htexts.
    apply Forall_forall. intros w Hw.
    assert (Hin : In (TextChunk.text w) (map TextChunk.text (chunk self content)))
      by (apply in_map; exact Hw).
    rewrite Htexts in Hin. apply in_map_iff in Hin.
    destruct Hin as [c [Hc Hin]]. rewrite <- Hc.
    rewrite Forall_forall in Hbound. specialize (Hbound c Hin).
    pose proof (len_strip_le c). lia.
Qed.

(** The bound is reached: with a window size of 40, an overlap of 10 and
    sentences of at most 34 characters it is 45, the length of the second
    window of the rainy note. *)
Lemma chunk_window_size_bound_witness :
  0 < overlap small_chunker
  /\ Forall (fun sentence => len sentence <= 34)
            (_split_into_sentences (CleanedContent.text (note rainy_text)))
  /\ Forall (fun w => len (TextChunk.text w) <= 45)
            (chunk small_chunker (note rainy_text)).
Proof.
  assert (Hpos : 0 < overlap small_chunker) by reflexivity.
  assert (Hall : Forall (fun sentence => len sentence <= 34)
                   (_split_into_sentences (CleanedContent.text (note rainy_text))))
    by (vm_compute; repeat constructor; discriminate).
  split; [exact Hpos|]. split; [exact Hall|].
  exact (chunk_window_size_bound small_chunker (note rainy_text) 34 Hpos Hall).
Defined.

(** A window with empty text comes from an empty document only: whenever
    the text of the document is not empty, every window [chunk] returns has
    a text that is not empty. *)
Theorem chunk_empty_window_only_for_empty_text :
  forall (self : TextChunker) (content : CleanedContent.t) (w : TextChunk.t),
    In w (chunk self content) ->
    TextChunk.text w = EmptyString ->
    CleanedContent.text content = EmptyString.
Proof.
  intros self content w Hw Hempty.
  destruct (len (CleanedContent.text content) <=? chunk_size self) eqn:Hleb.
  - unfold chunk in Hw. rewrite Hleb in Hw.
    destruct Hw as [<-|[]]. exact Hempty.
  - exfalso.
    assert (Hin : In (TextChunk.text w) (map TextChunk.text (chunk self content)))
      by (apply in_map; exact Hw).
    rewrite (chunk_long_texts self content Hleb) in Hin.
    destruct (chunk_texts_plans self
                (_split_into_sentences (CleanedContent.text content)))
      as (plans & Htexts & Hcover & Hunits & _).
    rewrite Htexts, map_map in Hin. apply in_map_iff in Hin.
    destruct Hin as [p [Hp Hin]].
    assert (Hink : has_ink (render p) = true).
    { unfold render. rewrite has_ink_join. apply existsb_exists.
      rewrite Forall_forall in Hunits. specialize (Hunits p Hin).
      destruct (snd p) as [|u us] eqn:Eu; [contradiction|].
      exists u. split; [apply in_or_app; right; left; reflexivity|].
      pose proof (sentences_are_stripped_and_nonempty
                    (CleanedContent.text content)) as Hs.
      rewrite Forall_forall in Hs. apply Hs.
      rewrite <- Hcover. apply in_concat. exists (snd p).
      split; [apply in_map; exact Hin|rewrite Eu; left; reflexivity]. }
    rewrite <- truthy_strip, Hp, Hempty in Hink. discriminate Hink.
Qed.

(** The one way to an empty window: the empty note under the default
    sizes. *)
Lemma chunk_empty_window_witness :
  In (make_chunk (note EmptyString) 0 1 EmptyString)
     (chunk default_chunker (note EmptyString))
  /\ TextChunk.text (make_chunk (note EmptyString) 0 1 EmptyString) = EmptyString
  /\ CleanedContent.text (note EmptyString) = EmptyString.
Proof.
  assert (Hin : In (make_chunk (note EmptyString) 0 1 EmptyString)
                   (chunk default_chunker (note EmptyString)))
    by (left; reflexivity).
  split; [exact Hin|]. split; [reflexivity|].
  exact (chunk_empty_window_only_for_empty_text default_chunker
           (note EmptyString) _ Hin eq_refl).
Defined.

(** A text of nothing but whitespace.  When it fits the window size it
    comes back as one window holding the whitespace unchanged; when it is
    longer than the window size no window comes back at all. *)
Theorem chunk_of_blank_text :
  forall (self : TextChunker) (content : CleanedContent.t),
    has_ink (CleanedContent.text content) = false ->
    chunk self content =
    if len (CleanedContent.text content) <=? chunk_size self
    then [make_chunk content 0 1 (CleanedContent.text content)]
    else [].
Proof.
  intros self content Hblank. unfold chunk.
  destruct (len (CleanedContent.text content) <=? chunk_size self);
    [reflexivity|].
  rewrite (blank_text_no_sentences _ Hblank). reflexivity.
Qed.

(** Five blanks under a window size of 3: no window. *)
Lemma chunk_of_blank_text_witness :
  has_ink (CleanedContent.text (note "     ")) = false
  /\ chunk {| chunk_size := 3; overlap := 1 |} (note "     ") = [].
Proof.
  assert (Hblank : has_ink (CleanedContent.text (note "     ")) = false)
    by reflexivity.
  split; [exact Hblank|].
  exact (chunk_of_blank_text {| chunk_size := 3; overlap := 1 |}
           (note "     ") Hblank).
Defined.

End ChunkerMore.

(** ** Further properties of [NewsletterDetector] *)

Module DetectorMore.

Import Py Detector ScoreLogic Examples.
Open Scope Q_scope.

(** *** Reasoning about the body of a score function *)

Section Respects.

Variable P : Q -> Prop.

Lemma respects_ret {A : Type} (a : A) : respects P (ret a).
Proof. intros st H. split; [exact H|]. intros r E. discriminate E. Qed.

Lemma respects_raise {A : Type} (err : string) : respects P (@raise A err).
Proof. intros st H. split; [exact H|]. intros r E. discriminate E. Qed.

Lemma respects_return {A : Type} (r : Q * list string) :
  0 <= fst r -> fst r <= 1 -> respects P (@return_ A r).
Proof.
  intros H0 H1 st H. split; [exact H|].
  intros r' E. inversion E; subst. split; assumption.
Qed.

Lemma respects_bind {A B : Type} (m : M A) (f : A -> M B) :
  respects P m -> (forall a, respects P (f a)) -> respects P (bind m f).
Proof.
  intros Hm Hf st H. unfold bind.
  destruct (Hm st H) as [Hst Hret].
  destruct (m st) as [[a|r|err] st'] eqn:E; cbn [fst snd] in *.
  - apply Hf. exact Hst.
  - split; [exact Hst|]. intros r' Er. inversion Er; subst. apply Hret. reflexivity.
  - split; [exact Hst|]. intros r' Er. discriminate Er.
Qed.

Lemma respects_append (reason : string) : respects P (append_reason reason).
Proof. intros st H. split; [exact H|]. intros r E. discriminate E. Qed.

Lemma respects_add (q : Q) :
  (forall score, P score -> P (score + q)) -> respects P (add_score q).
Proof.
  intros Hq st H. split; [apply Hq; exact H|]. intros r E. discriminate E.
Qed.

Lemma respects_when (b : bool) (m : M unit) :
  respects P m -> respects P (when b m).
Proof. intro Hm. destruct b; [exact Hm|apply respects_ret]. Qed.

Lemma respects_getattr (a : attr (option string)) : respects P (getattr_str a).
Proof.
  destruct a as [|[s|]|err]; cbn;
    first [apply respects_ret | apply respects_raise].
Qed.

Lemma respects_re_search (p : Re.pattern) (text : string) :
  respects P (re_search p text).
Proof.
  unfold re_search. destruct (Re.search p text);
    [apply respects_ret | apply respects_raise].
Qed.

End Respects.

Lemma nonneg_add (q : Q) :
  0 <= q -> forall score, 0 <= score -> 0 <= score + q.
Proof.
  intros Hq score Hs. rewrite <- (Qplus_0_r 0). apply Qplus_le_compat; assumption.
Qed.

Lemma nonneg_scaled (weight : Q) (n : nat) :
  0 <= weight -> 0 <= weight * inject_Z (Z.of_nat n).
Proof.
  intro Hw. apply Qmult_le_0_compat; [exact Hw|].
  unfold Qle. cbn. lia.
Qed.

Ltac respects_step :=
  first
    [ apply respects_bind; [|intro]
    | apply respects_getattr
    | apply respects_re_search
    | apply respects_when
    | apply respects_append
    | apply respects_ret
    | apply respects_return; [discriminate|discriminate]
    | apply respects_add; first
        [ exact (fun _ _ => I)
        | apply nonneg_add; first [discriminate | apply nonneg_scaled; discriminate] ]
    | progress cbv zeta
    | match goal with
      | |- respects _ (if ?b then _ else _) => destruct b
      | |- respects _ (match ?x with _ => _ end) => destruct x
      end ].

Lemma newsletter_body_nonneg (email : email_object) :
  respects (fun score => 0 <= score) (newsletter_body email).
Proof. unfold newsletter_body. repeat respects_step. Qed.

Lemma promotional_body_nonneg (email : email_object) :
  respects (fun score => 0 <= score) (promotional_body email).
Proof. unfold promotional_body. repeat respects_step. Qed.

Lemma quality_body_returns (email : email_object) :
  respects (fun _ => True) (quality_body email).
Proof. unfold quality_body, content_length_step. repeat respects_step. Qed.

Lemma capped_score_in_range (body : M unit) :
  respects (fun score => 0 <= score) body ->
  0 <= fst (try_pass_then_return body (fun score => Qmin score 1))
  /\ fst (try_pass_then_return body (fun score => Qmin score 1)) <= 1.
Proof.
  intro Hbody. unfold try_pass_then_return.
  destruct (Hbody (0, []) (Qle_refl 0)) as [Hscore Hret].
  destruct (body (0, [])) as [[[]|r|err] [score reasons]]; cbn [fst snd] in *.
  - split; [apply Q.min_glb; [exact Hscore|discriminate] | apply Q.le_min_r].
  - apply Hret. reflexivity.
  - split; [apply Q.min_glb; [exact Hscore|discriminate] | apply Q.le_min_r].
Qed.

Lemma clamped_score_in_range (body : M unit) :
  respects (fun _ => True) body ->
  0 <= fst (try_pass_then_return body (fun score => Qmax (Qmin score 1) 0))
  /\ fst (try_pass_then_return body (fun score => Qmax (Qmin score 1) 0)) <= 1.
Proof.
  intro Hbody. unfold try_pass_then_return.
  destruct (Hbody (0, []) I) as [_ Hret].
  destruct (body (0, [])) as [[[]|r|err] [score reasons]]; cbn [fst snd] in *.
  - split; [apply Q.le_max_r | apply Q.max_lub; [apply Q.le_min_r|discriminate]].
  - apply Hret. reflexivity.
  - split; [apply Q.le_max_r | apply Q.max_lub; [apply Q.le_min_r|discriminate]].
Qed.

(** The three scores of a verdict lie between 0 and 1, for every object
    [detect] is handed, attributes that are missing, [None] or raise on
    reading included, and for every configuration. *)
Theorem scores_lie_in_unit_interval :
  forall (self : NewsletterDetector) (email : email_object),
    let r := detect self email in
    (0 <= newsletter_confidence r /\ newsletter_confidence r <= 1)
    /\ (0 <= promotional_score r /\ promotional_score r <= 1)
    /\ (0 <= quality_score r /\ quality_score r <= 1).
Proof.
  intros self email r. subst r.
  rewrite DetectorFacts.detect_unfold.
  cbn [newsletter_confidence promotional_score quality_score].
  split; [|split].
  - apply capped_score_in_range, newsletter_body_nonneg.
  - apply capped_score_in_range, promotional_body_nonneg.
  - apply clamped_score_in_range, quality_body_returns.
Qed.

(** *** Which evidence a default verdict needs *)

Lemma getattr_cases (a : attr (option string)) :
  getattr_str a =
  match read_result a with
  | inl s => ret s
  | inr err => raise err
  end.
Proof. destruct a as [|[s|]|err]; reflexivity. Qed.

Ltac run_score :=
  cbv beta iota zeta delta
    [bind ret when add_score append_reason return_ raise
     try_pass_then_return content_length_step fst snd].

Ltac split_conditions :=
  repeat (match goal with
          | |- context [_check_patterns ?text ?patterns] =>
              destruct (_check_patterns text patterns) as [[] ?]
          | |- context [if ?b then _ else _] => destruct b
          end; cbv beta iota).

(** Under the default threshold of 0.4 no single newsletter signal makes a
    message a newsletter: a verdict with [is_newsletter] carries at least
    two of the four newsletter reasons. *)
Theorem default_newsletter_needs_two_signals :
  forall email : email_object,
    is_newsletter (detect default_detector email) = true ->
    (2 <= List.length (snd (_calculate_newsletter_score email)))%nat.
Proof.
  intros email. rewrite DetectorFacts.detect_unfold.
  cbn [is_newsletter]. change (newsletter_threshold default_detector) with 0.4.
  unfold _calculate_newsletter_score, newsletter_body.
  rewrite !getattr_cases.
  destruct (read_result (obj_sender_email email));
  destruct (read_result (obj_sender email));
  destruct (read_result (obj_subject email));
  run_score; split_conditions;
  first [ intros _; cbn [List.length app]; lia
        | intro H; vm_compute in H; discriminate H ].
Qed.

(** The newsletter of the scenario carries three signals. *)
Lemma default_newsletter_witness :
  is_newsletter (detect default_detector (object_of morning_brew_issue)) = true
  /\ (2 <= List.length
            (snd (_calculate_newsletter_score (object_of morning_brew_issue))))%nat.
Proof.
  assert (H : is_newsletter (detect default_detector (object_of morning_brew_issue))
              = true) by (vm_compute; reflexivity).
  split; [exact H|].
  exact (default_newsletter_needs_two_signals _ H).
Defined.

Ltac bound_hit_count :=
  repeat match goal with
         | |- context [Nat.min (List.length ?l) ?cap] =>
             let k := fresh "k" in
             let Hk := fresh "Hk" in
             pose proof (Nat.le_min_r (List.length l) cap) as Hk;
             set (k := Nat.min (List.length l) cap) in *; clearbody k;
             destruct k as [|[|[|[|[|k]]]]]; try (exfalso; lia); clear Hk
         end.

(** Under the default threshold of 0.5 no single promotional signal makes
    a message promotional, the block-list apart: a verdict with
    [is_promotional] carries the block-list reason or at least two
    promotional reasons. *)
Theorem default_promotional_needs_two_signals :
  forall email : email_object,
    is_promotional (detect default_detector email) = true ->
    snd (_calculate_promotional_score email) = ["Blacklisted sender domain"]
    \/ (2 <= List.length (snd (_calculate_promotional_score email)))%nat.
Proof.
  intros email. rewrite DetectorFacts.detect_unfold.
  cbn [is_promotional]. change (promotional_threshold default_detector) with 0.5.
  unfold _calculate_promotional_score, promotional_body, re_search.
  rewrite !getattr_cases.
  destruct (read_result (obj_sender_email email));
  destruct (read_result (obj_subject email));
  destruct (read_result (obj_body_text email));
  run_score; rewrite ?DetectorFacts.price_search; cbv beta iota;
  try match goal with
      | |- context [promotional_sender_part ?a] =>
          destruct (promotional_sender_part a)
      end;
  cbv beta iota; split_conditions;
  first [ intros _; left; reflexivity
        | intros _; right; cbn [List.length app]; lia
        | bound_hit_count; intro H; vm_compute in H; discriminate H ].
Qed.

(** A sale mail from a shop address: three promotional reasons. *)
Lemma default_promotional_witness :
  is_promotional
    (detect default_detector
       (object_of {| id := "m-sale"; subject := "Flash sale ends today";
                     sender := "Shop"; sender_email := "deals@example.org";
                     body_text := "Shop now"; headers := [] |})) = true
  /\ (2 <= List.length
            (snd (_calculate_promotional_score
                    (object_of {| id := "m-sale";
                                  subject := "Flash sale ends today";
                                  sender := "Shop";
                                  sender_email := "deals@example.org";
                                  body_text := "Shop now"; headers := [] |}))))%nat.
Proof.
  set (m := object_of _).
  assert (H : is_promotional (detect default_detector m) = true)
    by (vm_compute; reflexivity).
  split; [exact H|].
  destruct (default_promotional_needs_two_signals m H) as [Hb|Hn].
  - vm_compute in Hb. discriminate Hb.
  - exact Hn.
Defined.

(** Under the default quality threshold of 0.3 the body alone never
    carries a message: a verdict with [is_worth_reading] has an allow-listed
    sender domain or a subject that hits a quality pattern. *)
Theorem default_retention_needs_quality_evidence :
  forall email : email_object,
    is_worth_reading (detect default_detector email) = true ->
    In "Quality newsletter platform" (snd (_calculate_quality_score email))
    \/ In "Quality subject" (snd (_calculate_quality_score email)).
Proof.
  intros email Hworth.
  assert (H : Qle_bool 0.3 (fst (_calculate_quality_score email)) = true).
  { rewrite DetectorFacts.detect_unfold in Hworth. cbn [is_worth_reading] in Hworth.
    apply andb_true_iff in Hworth. exact (proj2 Hworth). }
  clear Hworth. revert H.
  unfold _calculate_quality_score, quality_body.
  rewrite !getattr_cases.
  destruct (read_result (obj_sender_email email));
  destruct (read_result (obj_subject email));
  destruct (read_result (obj_body_text email));
  run_score; split_conditions;
  first [ intros _; cbn [app In]; intuition reflexivity
        | intro H; vm_compute in H; discriminate H ].
Qed.

Lemma default_retention_witness :
  is_worth_reading (detect default_detector (object_of morning_brew_issue)) = true
  /\ In "Quality newsletter platform"
        (snd (_calculate_quality_score (object_of morning_brew_issue))).
Proof.
  assert (H : is_worth_reading
                (detect default_detector (object_of morning_brew_issue)) = true)
    by (vm_compute; reflexivity).
  split; [exact H|].
  destruct (default_retention_needs_quality_evidence _ H) as [Hq|Hq].
  - exact Hq.
  - left. reflexivity.
Defined.

(** *** The batch filter *)

(** The scores of a verdict do not depend on the thresholds. *)
Lemma scores_ignore_thresholds (a b : NewsletterDetector) (email : email_object) :
  newsletter_confidence (detect a email) = newsletter_confidence (detect b email)
  /\ promotional_score (detect a email) = promotional_score (detect b email)
  /\ quality_score (detect a email) = quality_score (detect b email).
Proof. rewrite !DetectorFacts.detect_unfold. cbn. repeat split. Qed.

(** Tightening the thresholds only removes messages.  When [strict] asks
    for at least the newsletter score and the quality score [loose] asks
    for, and tolerates at most the promotional score [loose] tolerates,
    every message [filter_newsletters(..., quality_only=True)] returns
    under [strict] it returns under [loose] as well. *)
Theorem tighter_thresholds_keep_fewer :
  forall (loose strict : NewsletterDetector) (emails : list email_object)
         (email : email_object),
    newsletter_threshold loose <= newsletter_threshold strict ->
    promotional_threshold strict <= promotional_threshold loose ->
    quality_threshold loose <= quality_threshold strict ->
    In email (map fst (filter_newsletters strict emails true)) ->
    In email (map fst (filter_newsletters loose emails true)).
Proof.
  intros loose strict emails email Hn Hp Hq Hin.
  apply in_map_iff in Hin. destruct Hin as [[e r] [He Hin]]. cbn in He. subst e.
  apply DetectorFacts.in_filter_newsletters in Hin.
  destruct Hin as [Hmem [_ Hkept]].
  apply in_map_iff. exists (email, detect loose email). split; [reflexivity|].
  apply DetectorFacts.in_filter_newsletters.
  split; [exact Hmem|]. split; [reflexivity|].
  unfold kept in *.
  apply DetectorFacts.worth_reading_iff in Hkept.
  apply DetectorFacts.worth_reading_iff.
  destruct (scores_ignore_thresholds loose strict email) as [-> [-> ->]].
  destruct Hkept as [H1 [H2 H3]].
  split; [eapply Qle_trans; eassumption|].
  split; [eapply Qlt_le_trans; eassumption|eapply Qle_trans; eassumption].
Qed.

(** The scenario's newsletter passes the default thresholds, so it passes
    the ones that accept any quality. *)
Lemma tighter_thresholds_witness :
  newsletter_threshold any_quality <= newsletter_threshold default_detector
  /\ promotional_threshold default_detector <= promotional_threshold any_quality
  /\ quality_threshold any_quality <= quality_threshold default_detector
  /\ In (object_of morning_brew_issue)
        (map fst (filter_newsletters default_detector
                    [object_of amazon_offer; object_of morning_brew_issue] true))
  /\ In (object_of morning_brew_issue)
        (map fst (filter_newsletters any_quality
                    [object_of amazon_offer; object_of morning_brew_issue] true)).
Proof.
  assert (H1 : newsletter_threshold any_quality
               <= newsletter_threshold default_detector) by discriminate.
  assert (H2 : promotional_threshold default_detector
               <= promotional_threshold any_quality) by discriminate.
  assert (H3 : quality_threshold any_quality
               <= quality_threshold default_detector) by discriminate.
  assert (H4 : In (object_of morning_brew_issue)
                 (map fst (filter_newsletters default_detector
                    [object_of amazon_offer; object_of morning_brew_issue] true))).
  { vm_compute. left. reflexivity. }
  refine (conj H1 (conj H2 (conj H3 (conj H4 _)))).
  exact (tighter_thresholds_keep_fewer any_quality default_detector _ _
           H1 H2 H3 H4).
Defined.

(** What [filter_newsletters] returns.  The messages of the output are the
    messages of the input that pass the test, each as often as it stands in
    the input, and each is paired with its own verdict; nothing is added
    and the output is never longer than the input. *)
Theorem filter_returns_the_kept_messages :
  forall (self : NewsletterDetector) (emails : list email_object)
         (quality_only : bool),
    let out := filter_newsletters self emails quality_only in
    Permutation (map fst out) (filter (kept self quality_only) emails)
    /\ Forall (fun pair => snd pair = detect self (fst pair)) out
    /\ (List.length out <= List.length emails)%nat.
Proof.
  intros self emails quality_only out. subst out.
  unfold filter_newsletters.
  set (key := fun x : email_object * DetectionResult => quality_score (snd x)).
  pose proof (DetectorFacts.sort_desc_perm key (accepted self emails quality_only))
    as Hperm.
  rewrite DetectorFacts.accepted_filter in Hperm.
  split; [|split].
  - apply (Permutation_map fst) in Hperm.
    rewrite map_map in Hperm. cbn [fst] in Hperm. rewrite map_id in Hperm.
    rewrite DetectorFacts.accepted_filter. exact Hperm.
  - apply Forall_forall. intros [e r] Hin.
    rewrite DetectorFacts.accepted_filter in Hin.
    apply (Permutation_in _ Hperm) in Hin. apply in_map_iff in Hin.
    destruct Hin as [e' [Heq _]]. inversion Heq; subst. reflexivity.
  - rewrite DetectorFacts.accepted_filter.
    rewrite (Permutation_length Hperm), length_map.
    apply filter_length_le.
Qed.

(** The quality filter refines the newsletter filter: every pair returned
    with [quality_only=True] is returned with [quality_only=False] too,
    and its verdict is a newsletter that is not promotional. *)
Theorem quality_filter_refines_newsletter_filter :
  forall (self : NewsletterDetector) (emails : list email_object)
         (pair : email_object * DetectionResult),
    In pair (filter_newsletters self emails true) ->
    In pair (filter_newsletters self emails false)
    /\ is_newsletter (snd pair) = true
    /\ is_promotional (snd pair) = false.
Proof.
  intros self emails [email r] Hin.
  apply DetectorFacts.in_filter_newsletters in Hin.
  destruct Hin as [Hmem [-> Hkept]].
  unfold kept in Hkept.
  assert (Hflags : is_newsletter (detect self email) = true
                   /\ is_promotional (detect self email) = false).
  { rewrite DetectorFacts.detect_unfold in *. cbn in *.
    apply andb_true_iff in Hkept. destruct Hkept as [Hkept _].
    apply andb_true_iff in Hkept. destruct Hkept as [Hn Hp].
    apply negb_true_iff in Hp. split; assumption. }
  split; [|exact Hflags].
  apply DetectorFacts.in_filter_newsletters.
  split; [exact Hmem|]. split; [reflexivity|exact (proj1 Hflags)].
Qed.

Lemma quality_filter_witness :
  In (object_of morning_brew_issue,
      detect default_detector (object_of morning_brew_issue))
     (filter_newsletters default_detector [object_of morning_brew_issue] true)
  /\ In (object_of morning_brew_issue,
         detect default_detector (object_of morning_brew_issue))
        (filter_newsletters default_detector [object_of morning_brew_issue] false).
Proof.
  assert (H : In (object_of morning_brew_issue,
                  detect default_detector (object_of morning_brew_issue))
                (filter_newsletters default_detector
                   [object_of morning_brew_issue] true)).
  { apply DetectorFacts.in_filter_newsletters.
    split; [left; reflexivity|]. split; [reflexivity|].
    vm_compute. reflexivity. }
  split; [exact H|].
  exact (proj1 (quality_filter_refines_newsletter_filter _ _ _ H)).
Defined.

End DetectorMore.

(** ** Stripping and splitting *)

Module StringFacts.

Import Py.

Lemma free_of_app (p : ascii -> bool) (a b : string) :
  free_of p (a ++ b) = free_of p a && free_of p b.
Proof.
  induction a as [|c a IH]; cbn; [reflexivity|].
  rewrite IH. apply andb_assoc.
Qed.

Lemma free_of_weaken (p q : ascii -> bool) (s : string) :
  (forall c, q c = true -> p c = true) ->
  free_of p s = true -> free_of q s = true.
Proof.
  intros Hpq. induction s as [|c s IH]; cbn; [reflexivity|].
  intro H. apply andb_true_iff in H. destruct H as [Hc Hs].
  rewrite (IH Hs), andb_true_r.
  destruct (q c) eqn:E; [|reflexivity].
  rewrite (Hpq c E) in Hc. discriminate Hc.
Qed.

Lemma lstrip_free (p : ascii -> bool) (s : string) :
  free_of p s = true -> lstrip_with p s = s.
Proof.
  destruct s as [|c s]; cbn; [reflexivity|].
  intro H. apply andb_true_iff in H. destruct H as [Hc _].
  apply negb_true_iff in Hc. rewrite Hc. reflexivity.
Qed.

Lemma rstrip_free (p : ascii -> bool) (s : string) :
  free_of p s = true -> rstrip_with p s = s.
Proof.
  induction s as [|c s IH]; cbn; [reflexivity|].
  intro H. apply andb_true_iff in H. destruct H as [Hc Hs].
  apply negb_true_iff in Hc. rewrite (IH Hs), Hc, andb_false_r. reflexivity.
Qed.

(** A stripped character at the very end goes, and the stripping goes on
    before it. *)
Lemma rstrip_snoc (p : ascii -> bool) (s : string) (c : ascii) :
  p c = true ->
  rstrip_with p (s ++ String c EmptyString) = rstrip_with p s.
Proof.
  intro Hc. induction s as [|d s IH]; cbn [append rstrip_with].
  - cbn. rewrite Hc. reflexivity.
  - rewrite IH. reflexivity.
Qed.

Lemma strip_free (s : string) : free_of isspace s = true -> strip s = s.
Proof.
  intro H. unfold strip, strip_with.
  rewrite (lstrip_free _ _ H). apply rstrip_free, H.
Qed.

Lemma split_at_first (p : ascii -> bool) (a b : string) (c : ascii) :
  free_of p a = true -> p c = true ->
  forall cur, hd EmptyString (split_at p (a ++ String c b) cur) = (cur ++ a)%string.
Proof.
  intros Ha Hc. induction a as [|d a IH]; intro cur; cbn [append split_at].
  - rewrite Hc. cbn. symmetry. apply PyFacts.append_nil_r.
  - cbn in Ha. apply andb_true_iff in Ha. destruct Ha as [Hd Ha].
    apply negb_true_iff in Hd. rewrite Hd, (IH Ha).
    apply DetectorFacts.append_snoc.
Qed.

Lemma lstrip_app_ink (a b : string) :
  ChunkPlan.has_ink a = true ->
  lstrip_with isspace (a ++ b) = (lstrip_with isspace a ++ b)%string.
Proof.
  induction a as [|c a IH]; cbn; [discriminate|].
  destruct (isspace c); cbn; [exact IH|reflexivity].
Qed.

Lemma strip_trailing_space (s : string) : strip (s ++ " ") = strip s.
Proof.
  destruct (ChunkPlan.has_ink s) eqn:E.
  - unfold strip, strip_with. rewrite (lstrip_app_ink _ _ E).
    apply rstrip_snoc. reflexivity.
  - rewrite (PyFacts.strip_blank s E). apply PyFacts.strip_blank.
    rewrite PyFacts.has_ink_app, E. reflexivity.
Qed.

End StringFacts.

(** ** Letter case *)

Module CaseFacts.

Import Py Detector.

Lemma lower_char_idem (c : ascii) : lower_char (lower_char c) = lower_char c.
Proof. destruct c as [[] [] [] [] [] [] [] []]; reflexivity. Qed.

Lemma isspace_lower_char (c : ascii) : isspace (lower_char c) = isspace c.
Proof. destruct c as [[] [] [] [] [] [] [] []]; reflexivity. Qed.

(** Lower-casing neither makes nor unmakes one of [< > @]. *)
Lemma mark_lower_char (c d : ascii) :
  In c ["<"; ">"; "@"]%char ->
  Ascii.eqb c (lower_char d) = Ascii.eqb c d.
Proof.
  intros [<-|[<-|[<-|[]]]];
    destruct d as [[] [] [] [] [] [] [] []]; reflexivity.
Qed.

Lemma lower_idem (s : string) : lower (lower s) = lower s.
Proof.
  induction s as [|c s IH]; cbn; [reflexivity|].
  rewrite lower_char_idem, IH. reflexivity.
Qed.

Lemma truthy_lower (s : string) : truthy (lower s) = truthy s.
Proof. destruct s; reflexivity. Qed.

Lemma lower_snoc (s : string) (c : ascii) :
  lower (snoc s c) = snoc (lower s) (lower_char c).
Proof. unfold snoc. induction s as [|d s IH]; cbn; [reflexivity|]. rewrite IH. reflexivity. Qed.

Section Unchanged.

(** A test on characters that lower-casing does not change. *)
Variable p : ascii -> bool.
Hypothesis p_lower : forall c, p (lower_char c) = p c.

Lemma free_of_lower (s : string) : free_of p (lower s) = free_of p s.
Proof.
  induction s as [|c s IH]; cbn; [reflexivity|].
  rewrite p_lower, IH. reflexivity.
Qed.

Lemma split_at_lower (s cur : string) :
  split_at p (lower s) (lower cur) = map lower (split_at p s cur).
Proof.
  revert cur. induction s as [|c s IH]; intro cur; cbn; [reflexivity|].
  rewrite p_lower. destruct (p c); cbn.
  - f_equal. apply (IH EmptyString).
  - rewrite <- lower_snoc. apply IH.
Qed.

Lemma lstrip_lower (s : string) :
  lstrip_with p (lower s) = lower (lstrip_with p s).
Proof.
  induction s as [|c s IH]; cbn; [reflexivity|].
  rewrite p_lower. destruct (p c); [exact IH|reflexivity].
Qed.

Lemma rstrip_lower (s : string) :
  rstrip_with p (lower s) = lower (rstrip_with p s).
Proof.
  induction s as [|c s IH]; cbn; [reflexivity|].
  rewrite IH, truthy_lower, p_lower.
  destruct (negb (truthy (rstrip_with p s)) && p c); reflexivity.
Qed.

Lemma strip_with_lower (s : string) :
  strip_with p (lower s) = lower (strip_with p s).
Proof. unfold strip_with. rewrite lstrip_lower, rstrip_lower. reflexivity. Qed.

End Unchanged.

Lemma contains_char_lower (c : ascii) (s : string) :
  In c ["<"; ">"; "@"]%char ->
  contains_char c (lower s) = contains_char c s.
Proof.
  intro Hc. induction s as [|d s IH]; cbn; [reflexivity|].
  rewrite (mark_lower_char c d Hc), IH. reflexivity.
Qed.

Lemma strip_lower (s : string) : strip (lower s) = lower (strip s).
Proof. apply strip_with_lower. exact isspace_lower_char. Qed.

Lemma extract_sender_name_lower (s : string) :
  _extract_sender_name (lower s) = _extract_sender_name s.
Proof.
  unfold _extract_sender_name.
  rewrite truthy_lower, contains_char_lower by (cbn; tauto).
  destruct (negb (truthy s)); [reflexivity|].
  destruct (contains_char "<" s); [|apply lower_idem].
  unfold split_char.
  assert (E := split_at_lower (Ascii.eqb "<")
                 (fun c => mark_lower_char "<" c (or_introl eq_refl))
                 s EmptyString).
  cbn [lower] in E. rewrite E.
  destruct (split_at (Ascii.eqb "<") s EmptyString) as [|x l]; cbn [map hd].
  - reflexivity.
  - rewrite strip_lower. apply lower_idem.
Qed.

Lemma check_patterns_lower (s : string) (patterns : list Re.pattern) :
  _check_patterns (lower s) patterns = _check_patterns s patterns.
Proof.
  unfold _check_patterns. rewrite truthy_lower, lower_idem. reflexivity.
Qed.

End CaseFacts.

(** ** The detector and letter case *)

Module DetectorCase.

Import Py Detector ScoreLogic Examples MoreExamples CaseFacts.
Open Scope Q_scope.

Lemma bind_ret {A B : Type} (a : A) (f : A -> M B) (st : locals) :
  bind (ret a) f st = f a st.
Proof. reflexivity. Qed.

Ltac read_fields m :=
  destruct m as [i su se sem bo he];
  cbn [object_of lowered obj_subject obj_sender obj_sender_email obj_body_text
       id subject sender sender_email body_text headers getattr_str];
  repeat (rewrite bind_ret; cbv beta);
  rewrite ?lower_idem, ?extract_sender_name_lower, ?check_patterns_lower.

Lemma newsletter_score_lowered (m : EmailMessage) :
  _calculate_newsletter_score (object_of (lowered m))
  = _calculate_newsletter_score (object_of m).
Proof.
  unfold _calculate_newsletter_score, try_pass_then_return, newsletter_body.
  change (_has_unsubscribe_header (object_of (lowered m)))
    with (_has_unsubscribe_header (object_of m)).
  read_fields m. reflexivity.
Qed.

Lemma promotional_score_lowered (m : EmailMessage) :
  _calculate_promotional_score (object_of (lowered m))
  = _calculate_promotional_score (object_of m).
Proof.
  unfold _calculate_promotional_score, try_pass_then_return, promotional_body.
  read_fields m. reflexivity.
Qed.

Lemma quality_score_lowered (m : EmailMessage) :
  _calculate_quality_score (object_of (lowered m))
  = _calculate_quality_score (object_of m).
Proof.
  unfold _calculate_quality_score, try_pass_then_return, quality_body.
  read_fields m. reflexivity.
Qed.

Lemma detect_lowered (self : NewsletterDetector) (m : EmailMessage) :
  detect self (object_of (lowered m)) = detect self (object_of m).
Proof.
  unfold detect, detect_body.
  rewrite newsletter_score_lowered, promotional_score_lowered,
    quality_score_lowered.
  reflexivity.
Qed.

(** The verdict does not depend on the case of the letters of the subject,
    of the sender and of the sender's address: two messages that agree
    once these three are put in lower case get the same verdict, with the
    same scores and the same reasons. *)
Theorem detect_ignores_letter_case :
  forall (self : NewsletterDetector) (m1 m2 : EmailMessage),
    lowered m1 = lowered m2 ->
    detect self (object_of m1) = detect self (object_of m2).
Proof.
  intros self m1 m2 H.
  rewrite <- (detect_lowered self m1), <- (detect_lowered self m2), H.
  reflexivity.
Qed.

Lemma detect_ignores_letter_case_witness :
  lowered morning_brew_issue = lowered shouting_brew_issue
  /\ detect default_detector (object_of morning_brew_issue)
     = detect default_detector (object_of shouting_brew_issue).
Proof.
  assert (H : lowered morning_brew_issue = lowered shouting_brew_issue)
    by (vm_compute; reflexivity).
  exact (conj H (detect_ignores_letter_case default_detector _ _ H)).
Defined.

End DetectorCase.

(** ** [gmail_client.py] *)

Module GmailFacts.

Import Py PyDict Detector GmailClient Examples CaseFacts StringFacts.

(** *** Dicts *)

Lemma get_setitem (V : Type) (k k' : string) (v default : V)
    (d : list (string * V)) :
  get (setitem k v d) k' default = if String.eqb k' k then v else get d k' default.
Proof.
  induction d as [|[k0 v0] d IH]; cbn.
  - reflexivity.
  - destruct (String.eqb k k0) eqn:E; cbn.
    + apply String.eqb_eq in E. subst k0.
      destruct (String.eqb k' k); reflexivity.
    + rewrite IH. destruct (String.eqb k' k0) eqn:E0; [|reflexivity].
      apply String.eqb_eq in E0. subst k0.
      rewrite String.eqb_sym, E. reflexivity.
Qed.

Lemma keys_setitem (V : Type) (k : string) (v : V) (d : list (string * V)) :
  map fst (setitem k v d)
  = if has_key d k then map fst d else map fst d ++ [k].
Proof.
  unfold has_key. induction d as [|[k0 v0] d IH]; cbn; [reflexivity|].
  destruct (String.eqb k k0); cbn; [reflexivity|].
  rewrite IH. destruct (existsb _ d); reflexivity.
Qed.

Lemma has_key_in (V : Type) (k : string) (d : list (string * V)) :
  has_key d k = true <-> In k (map fst d).
Proof.
  unfold has_key. rewrite existsb_exists, in_map_iff. split.
  - intros [kv [Hin E]]. apply String.eqb_eq in E. exists kv. auto.
  - intros [kv [E Hin]]. exists kv. split; [exact Hin|].
    apply String.eqb_eq. auto.
Qed.

Lemma nodup_setitem (V : Type) (k : string) (v : V) (d : list (string * V)) :
  NoDup (map fst d) -> NoDup (map fst (setitem k v d)).
Proof.
  intro H. rewrite keys_setitem.
  destruct (has_key d k) eqn:E; [exact H|].
  apply NoDup_app; [exact H | repeat constructor; intros [] |].
  intros x Hx [<-|[]].
  apply has_key_in in Hx. congruence.
Qed.

(** *** [_parse_headers] *)

Abbreviation store :=
  (fun (d : list (string * string)) (h : string * string) =>
     setitem (lower (fst h)) (snd h) d) (only parsing).

Lemma find_app {A : Type} (p : A -> bool) (l m : list A) :
  find p (l ++ m) = match find p l with Some x => Some x | None => find p m end.
Proof.
  induction l as [|x l IH]; cbn; [reflexivity|].
  destruct (p x); [reflexivity|exact IH].
Qed.

Lemma get_stored (headers d : list (string * string)) (k default : string) :
  get (fold_left store headers d) k default
  = match last_named k headers with
    | Some v => v
    | None => get d k default
    end.
Proof.
  unfold last_named. revert d.
  induction headers as [|h headers IH]; intro d; cbn [fold_left rev].
  - reflexivity.
  - rewrite IH, find_app. cbn [find].
    destruct (find _ (rev headers)); cbn [option_map]; [reflexivity|].
    rewrite get_setitem.
    destruct (String.eqb k (lower (fst h))); reflexivity.
Qed.

Lemma get_parsed (headers : list (string * string)) (k default : string) :
  get (_parse_headers headers) k default
  = match last_named k headers with Some v => v | None => default end.
Proof. unfold _parse_headers. rewrite get_stored. reflexivity. Qed.

Lemma keys_stored (headers d : list (string * string)) (k : string) :
  In k (map fst (fold_left store headers d))
  <-> In k (map fst d) \/ In k (map (fun h => lower (fst h)) headers).
Proof.
  revert d. induction headers as [|h headers IH]; intro d; cbn [fold_left map].
  - cbn. tauto.
  - rewrite IH, keys_setitem.
    destruct (has_key d (lower (fst h))) eqn:E.
    + apply has_key_in in E. cbn. intuition (subst; auto).
    + rewrite in_app_iff. cbn. tauto.
Qed.

Lemma nodup_stored (headers d : list (string * string)) :
  NoDup (map fst d) -> NoDup (map fst (fold_left store headers d)).
Proof.
  revert d. induction headers as [|h headers IH]; intros d H; cbn [fold_left].
  - exact H.
  - apply IH, nodup_setitem, H.
Qed.

(** What [_parse_headers] returns: a dict whose keys are in lower case,
    in which a look-up finds the value of the last header of that name,
    whatever the case of the letters of the header's name, and the default
    when there is none.  No key is held twice. *)
Theorem parsed_headers_keep_the_last_value :
  forall (headers : list (string * string)) (k default : string),
    get (_parse_headers headers) k default
    = match last_named k headers with Some v => v | None => default end
    /\ NoDup (map fst (_parse_headers headers))
    /\ Forall (fun key => lower key = key) (map fst (_parse_headers headers)).
Proof.
  intros headers k default.
  split; [apply get_parsed|]. split.
  - apply nodup_stored. constructor.
  - apply Forall_forall. intros key Hin.
    apply keys_stored in Hin. destruct Hin as [[]|Hin].
    apply in_map_iff in Hin. destruct Hin as [h [<- _]].
    apply lower_idem.
Qed.

(** A fetched message has the unsubscribe signal of the detector exactly
    when its payload has a header named [List-Unsubscribe], in any case of
    the letters. *)
Theorem fetched_message_unsubscribe_header :
  forall (msg_id : string) (payload_headers : list (string * string))
         (text_body : string),
    _has_unsubscribe_header
      (object_of (get_message msg_id payload_headers text_body))
    = existsb (fun h => String.eqb (lower (fst h)) "list-unsubscribe")
        payload_headers.
Proof.
  intros msg_id hs body. unfold get_message.
  destruct (_extract_email_address _) as [sender_name address].
  unfold _has_unsubscribe_header, object_of.
  cbn [obj_headers headers].
  apply eq_true_iff_eq. rewrite !existsb_exists. split.
  - intros [[k v] [Hin E]]. cbn [fst] in E.
    assert (Hk : In k (map fst (_parse_headers hs)))
      by (apply in_map_iff; exists (k, v); auto).
    apply keys_stored in Hk. destruct Hk as [[]|Hk].
    apply in_map_iff in Hk. destruct Hk as [h [<- Hh]].
    exists h. split; [exact Hh|]. rewrite lower_idem in E. exact E.
  - intros [h [Hh E]].
    assert (Hk : In (lower (fst h)) (map fst (_parse_headers hs))).
    { apply keys_stored. right. apply in_map_iff. exists h. auto. }
    apply in_map_iff in Hk. destruct Hk as [[k v] [Ek Hin]]. cbn [fst] in Ek.
    exists (k, v). split; [exact Hin|]. cbn [fst].
    rewrite Ek, lower_idem. exact E.
Qed.

(** *** [_extract_email_address] *)

Lemma rsplit_once_free (c : ascii) (s : string) :
  free_of (Ascii.eqb c) s = true -> rsplit_once c s = None.
Proof.
  induction s as [|d s IH]; cbn; [reflexivity|].
  intro H. apply andb_true_iff in H. destruct H as [Hd Hs].
  rewrite (IH Hs). apply negb_true_iff in Hd. rewrite Hd. reflexivity.
Qed.

Lemma rsplit_once_last (c : ascii) (a b : string) :
  free_of (Ascii.eqb c) b = true ->
  rsplit_once c (a ++ String c b) = Some (a, b).
Proof.
  intro Hb. induction a as [|d a IH]; cbn [append rsplit_once].
  - rewrite (rsplit_once_free c b Hb), Ascii.eqb_refl. reflexivity.
  - rewrite IH. reflexivity.
Qed.

Lemma bracketed_header (display address : string) :
  free_of bracket_or_space address = true ->
  _extract_email_address (display ++ "<" ++ address ++ ">")
  = (strip_with (Ascii.eqb double_quote) (strip display), address).
Proof.
  intro Hfree.
  assert (Hlt : free_of (Ascii.eqb "<") (address ++ ">") = true).
  { rewrite free_of_app, andb_true_iff. split; [|reflexivity].
    apply (free_of_weaken bracket_or_space); [|exact Hfree].
    intros c E. unfold bracket_or_space. rewrite Ascii.eqb_sym, E. reflexivity. }
  assert (Hgt : free_of (Ascii.eqb ">") address = true).
  { apply (free_of_weaken bracket_or_space); [|exact Hfree].
    intros c E. unfold bracket_or_space. rewrite (Ascii.eqb_sym c ">"), E.
    apply orb_true_iff. left. apply orb_true_r. }
  assert (Hsp : free_of isspace address = true).
  { apply (free_of_weaken bracket_or_space); [|exact Hfree].
    intros c E. unfold bracket_or_space. rewrite E. apply orb_true_r. }
  unfold _extract_email_address.
  change (display ++ "<" ++ address ++ ">")%string
    with (display ++ String "<" (address ++ ">"))%string.
  rewrite DetectorFacts.contains_char_app.
  replace (contains_char ">" (display ++ String "<" (address ++ ">"))) with true.
  2:{ symmetry.
      replace (display ++ String "<" (address ++ ">"))%string
        with ((display ++ String "<" address) ++ String ">" EmptyString)%string.
      - apply DetectorFacts.contains_char_app.
      - rewrite PyFacts.append_assoc. reflexivity. }
  cbn [andb].
  rewrite (rsplit_once_last "<" display _ Hlt).
  rewrite (rstrip_snoc (Ascii.eqb ">") address ">" eq_refl).
  rewrite (rstrip_free _ _ Hgt), (strip_free _ Hsp).
  reflexivity.
Qed.

(** A [From] header of the form [display <address>] is taken apart as
    meant: the address is what stands between the angle brackets, the name
    is the display part without the white space and the double quotes
    around it.  The address may hold neither a bracket nor white space. *)
Theorem bracketed_sender_is_taken_apart :
  forall display address : string,
    free_of bracket_or_space address = true ->
    _extract_email_address (display ++ "<" ++ address ++ ">")
    = (strip_with (Ascii.eqb double_quote) (strip display), address).
Proof. exact bracketed_header. Qed.

Lemma bracketed_sender_witness :
  free_of bracket_or_space "weekly@morningbrew.com" = true
  /\ _extract_email_address ("Morning Brew " ++ "<" ++ "weekly@morningbrew.com" ++ ">")
     = (strip_with (Ascii.eqb double_quote) (strip "Morning Brew "),
        "weekly@morningbrew.com").
Proof.
  split; [reflexivity|].
  apply (bracketed_sender_is_taken_apart "Morning Brew " "weekly@morningbrew.com").
  reflexivity.
Defined.

(** The domain the detector looks up for a fetched message is the domain
    of the address between the angle brackets of its [From] header, in
    lower case. *)
Theorem fetched_message_sender_domain :
  forall (msg_id : string) (payload_headers : list (string * string))
         (text_body display local domain : string),
    last_named "from" payload_headers
    = Some (display ++ "<" ++ local ++ "@" ++ domain ++ ">")%string ->
    free_of bracket_or_space local = true ->
    free_of (fun c => bracket_or_space c || Ascii.eqb c "@") domain = true ->
    sender_domain (get_message msg_id payload_headers text_body) = lower domain.
Proof.
  intros msg_id hs body display local domain Hfrom Hlocal Hdomain.
  assert (Hdom : free_of bracket_or_space domain = true).
  { apply (free_of_weaken _ _ _ (fun c E => proj2 (orb_true_iff _ _) (or_introl E)))
      in Hdomain. exact Hdomain. }
  assert (Haddr : free_of bracket_or_space (local ++ "@" ++ domain) = true).
  { rewrite free_of_app, Hlocal. cbn. exact Hdom. }
  unfold sender_domain, get_message.
  rewrite get_parsed, Hfrom.
  replace (local ++ "@" ++ domain ++ ">")%string
    with ((local ++ "@" ++ domain) ++ ">")%string
    by (rewrite !PyFacts.append_assoc; reflexivity).
  rewrite (bracketed_header display (local ++ "@" ++ domain) Haddr).
  cbn [sender_email].
  rewrite DetectorFacts.lower_app. cbn [append lower].
  change (lower_char "@") with "@"%char.
  assert (Hat : free_of (Ascii.eqb "@") (lower domain) = true).
  { rewrite free_of_lower
      by (intro c; apply mark_lower_char; cbn; tauto).
    apply (free_of_weaken _ _ _ (fun c E => proj2 (orb_true_iff _ _) (or_intror
             (eq_trans (Ascii.eqb_sym c "@") E)))) in Hdomain.
    exact Hdomain. }
  assert (Hgt : free_of (Ascii.eqb ">") (lower domain) = true).
  { rewrite free_of_lower
      by (intro c; apply mark_lower_char; cbn; tauto).
    apply (free_of_weaken bracket_or_space); [|exact Hdom].
    intros c E. unfold bracket_or_space. rewrite (Ascii.eqb_sym c ">"), E.
    apply orb_true_iff. left. apply orb_true_r. }
  unfold _extract_domain, split_char.
  rewrite DetectorFacts.truthy_app, DetectorFacts.contains_char_app.
  cbn [negb].
  rewrite (DetectorFacts.split_at_last _ _ _ _ (Ascii.eqb_refl _) Hat).
  rewrite lower_idem.
  unfold strip_with.
  rewrite (lstrip_free _ _ Hgt). apply rstrip_free, Hgt.
Qed.

Lemma fetched_message_sender_domain_witness :
  sender_domain
    (get_message "m-brew"
       [("Subject", "Issue #214"); ("FROM", "Morning Brew <Weekly@MorningBrew.com>")]
       "Hello.")
  = lower "MorningBrew.com".
Proof.
  apply (fetched_message_sender_domain _ _ _ "Morning Brew " "Weekly" "MorningBrew.com");
    reflexivity.
Defined.

End GmailFacts.

(** ** [rag_engine.py] *)

Module RagFacts.

Import Py Detector RagEngine Conversation Examples StringFacts.

(** *** The sender shown with a source *)

(** The sender travels from the message to the source block unharmed:
    [clean] writes it as [name <address>], and the block shows the name
    again, without the white space around it, whenever the name holds no
    [<]. *)
Theorem source_block_shows_the_sender_name :
  forall email : EmailMessage,
    free_of (Ascii.eqb "<") (sender email) = true ->
    shown_sender (ContentCleaner.source_sender_of email) = strip (sender email).
Proof.
  intros email Hfree.
  unfold shown_sender, ContentCleaner.source_sender_of, split_char.
  replace (sender email ++ " <" ++ sender_email email ++ ">")%string
    with ((sender email ++ " ") ++ String "<" (sender_email email ++ ">"))%string
    by (rewrite PyFacts.append_assoc; reflexivity).
  rewrite DetectorFacts.contains_char_app.
  rewrite split_at_first;
    [| rewrite free_of_app, Hfree; reflexivity
     | apply Ascii.eqb_refl ].
  cbn [append]. apply strip_trailing_space.
Qed.

Lemma source_block_witness :
  free_of (Ascii.eqb "<") (sender long_words_letter) = true
  /\ shown_sender (ContentCleaner.source_sender_of long_words_letter)
     = strip (sender long_words_letter).
Proof.
  split; [reflexivity|].
  apply (source_block_shows_the_sender_name long_words_letter). reflexivity.
Defined.

(** *** The conversation *)

Lemma length_last_n {A : Type} (n : nat) (l : list A) :
  List.length (last_n n l) = Nat.min n (List.length l).
Proof. unfold last_n. rewrite length_skipn. lia. Qed.

Lemma last_n_snoc {A : Type} (n : nat) (l : list A) (x : A) :
  last_n (S n) (l ++ [x]) = last_n n l ++ [x].
Proof.
  unfold last_n. rewrite length_app, skipn_app. cbn [List.length].
  replace (List.length l + 1 - S n)%nat with (List.length l - n)%nat by lia.
  replace (List.length l - n - List.length l)%nat with 0%nat by lia.
  reflexivity.
Qed.

Lemma last_n_last_n {A : Type} (n k : nat) (l : list A) :
  (n <= k)%nat -> last_n n (last_n k l) = last_n n l.
Proof.
  intro H. unfold last_n. rewrite length_skipn, skipn_skipn. f_equal. lia.
Qed.

Lemma trim_is_last_n {A : Type} (n : nat) (l : list A) :
  (0 < n)%nat ->
  (if (Z.of_nat (List.length l) >? Z.of_nat n)%Z
   then list_slice_from (- Z.of_nat n) l else l) = last_n n l.
Proof.
  intro Hn. unfold last_n, list_slice_from.
  destruct (Z.of_nat (List.length l) >? Z.of_nat n)%Z eqn:E.
  - rewrite Z.gtb_ltb in E. apply Z.ltb_lt in E.
    destruct (- Z.of_nat n <? 0)%Z eqn:E'; [|apply Z.ltb_ge in E'; lia].
    f_equal. lia.
  - rewrite Z.gtb_ltb in E. apply Z.ltb_ge in E.
    replace (List.length l - n)%nat with 0%nat by lia. reflexivity.
Qed.

Section ChatHistory.

Context {W : Type} (rag_query : string -> W -> option RAGResponse * W).

Lemma chats_keep_last_ten (messages : list string) :
  forall (self : ConversationHandler) (before : list turn) (w : W),
    max_history self = 10%Z ->
    history self = last_n 10 before ->
    let '(responses, handler, _) := chats rag_query self messages w in
    history handler = last_n 10 (before ++ exchanges messages responses)
    /\ max_history handler = 10%Z.
Proof.
  induction messages as [|message rest IH]; intros self before w Hmax Hhist.
  - cbn. rewrite app_nil_r. auto.
  - cbn [chats]. unfold chat.
    destruct (rag_query _ w) as [[response|] w'].
    + set (t := {| user := message; assistant := answer response |}).
      set (self' := {| history := _; max_history := _ |}).
      specialize (IH self' (before ++ [t]) w').
      destruct (chats rag_query self' rest w') as [[responses handler] w''].
      cbn [exchanges]. fold t.
      replace (before ++ t :: exchanges rest responses)
        with ((before ++ [t]) ++ exchanges rest responses)
        by (rewrite <- app_assoc; reflexivity).
      apply IH; [exact Hmax|].
      subst self'. cbn [history]. rewrite Hmax.
      rewrite (trim_is_last_n 10) by lia.
      rewrite Hhist, !last_n_snoc. f_equal.
      apply last_n_last_n. lia.
    + specialize (IH self before w' Hmax Hhist).
      destruct (chats rag_query self rest w') as [[responses handler] w''].
      cbn [exchanges]. exact IH.
Qed.

End ChatHistory.

(** However many messages a fresh conversation is sent, and whatever the
    engine answers, the history holds the last ten exchanges that were
    answered, in order, and so never more than ten. *)
Theorem history_holds_the_last_ten_exchanges :
  forall (W : Type) (rag_query : string -> W -> option RAGResponse * W)
         (messages : list string) (w : W),
    let '(responses, handler, _) := chats rag_query __init__ messages w in
    history handler = last_n 10 (exchanges messages responses)
    /\ (List.length (history handler) <= 10)%nat.
Proof.
  intros W rag_query messages w.
  pose proof (chats_keep_last_ten rag_query messages __init__ [] w
                eq_refl eq_refl) as H.
  destruct (chats rag_query __init__ messages w) as [[responses handler] w'].
  destruct H as [H _]. cbn [app] in H. split; [exact H|].
  rewrite H, length_last_n. lia.
Qed.

(** *** The question sent to the engine *)

Lemma length_slice_last {A : Type} (l : list A) :
  (List.length (list_slice_from (-3) l) <= 3)%nat.
Proof.
  unfold list_slice_from. cbn [Z.ltb Z.compare]. rewrite length_skipn. lia.
Qed.

Abbreviation add_turn :=
  (fun (history_context : string) (turn : turn) =>
     ((history_context ++ ("User: " ++ take 150 (user turn) ++ NL))
      ++ ("Assistant: " ++ take 150 (assistant turn) ++ NL))%string)
  (only parsing).

Lemma len_take (n : nat) (s : string) : (len (take n s) <= Z.of_nat n)%Z.
Proof. unfold len. rewrite PyFacts.length_take. lia. Qed.

Lemma len_add_turns (turns : list turn) (start : string) :
  (len (fold_left add_turn turns start)
   <= len start + 319 * Z.of_nat (List.length turns))%Z.
Proof.
  revert start. induction turns as [|t turns IH]; intro start; cbn [fold_left].
  - cbn [List.length]. lia.
  - specialize (IH (add_turn start t)). cbv beta in IH |- *.
    rewrite !PyFacts.len_app in IH.
    change (len "User: ") with 6%Z in IH.
    change (len "Assistant: ") with 11%Z in IH.
    change (len NL) with 1%Z in IH.
    pose proof (len_take 150 (user t)). pose proof (len_take 150 (assistant t)).
    cbn [List.length]. lia.
Qed.

(** The history adds at most 999 characters to a question, however long
    the conversation and its turns have been: three turns at most are
    quoted, and 150 characters at most of each side of a turn. *)
Theorem enhanced_query_adds_at_most_999_characters :
  forall (history : list turn) (message : string),
    (len message <= len (enhanced_query history message) <= len message + 999)%Z.
Proof.
  intros history message. unfold enhanced_query.
  destruct history as [|t history]; [lia|].
  unfold history_context.
  pose proof (len_add_turns (list_slice_from (-3) (t :: history))
                ("Previous conversation:" ++ NL)%string) as H.
  pose proof (length_slice_last (t :: history)) as H3.
  rewrite !PyFacts.len_app.
  change (len ("Previous conversation:" ++ NL)) with 23%Z in H.
  change (len NL) with 1%Z. change (len "Current question: ") with 18%Z.
  pose proof (PyFacts.len_nonneg
                (fold_left add_turn (list_slice_from (-3) (t :: history))
                   ("Previous conversation:" ++ NL)%string)).
  lia.
Qed.

End RagFacts.

(** ** [embeddings.py]: the pipeline *)

Module PipelineFacts.

Import Py Chunker Pipeline Examples MoreExamples.

Lemma chunk_without_embedding (self : TextChunker) (content : CleanedContent.t) :
  map without_embedding (chunk self content) = chunk self content.
Proof.
  unfold chunk. destruct (len (CleanedContent.text content) <=? chunk_size self)%Z.
  - reflexivity.
  - rewrite ChunkerFacts.map_map_enumerate. reflexivity.
Qed.

Lemma chunks_without_embedding (self : TextChunker)
    (contents : list CleanedContent.t) :
  map without_embedding (flat_map (chunk self) contents)
  = flat_map (chunk self) contents.
Proof.
  induction contents as [|content contents IH]; cbn [flat_map]; [reflexivity|].
  rewrite map_app, chunk_without_embedding, IH. reflexivity.
Qed.

Lemma subsequence_filter {A B : Type} (f : A -> B) (p : A -> bool) (l : list A) :
  subsequence (map f (filter p l)) (map f l).
Proof.
  induction l as [|x l IH]; cbn; [constructor|].
  destruct (p x); cbn; constructor; exact IH.
Qed.

Lemma filter_all {A : Type} (p : A -> bool) (l : list A) :
  Forall (fun x => p x = true) l -> filter p l = l.
Proof.
  induction 1 as [|x l Hx _ IH]; cbn; [reflexivity|].
  rewrite Hx, IH. reflexivity.
Qed.

Section EmbedderFacts.

Context {W : Type} (generate : string -> W -> option (list Q) * W).

Lemma generate_batch_keeps_chunks (chunks : list TextChunk.t) (w : W) :
  map without_embedding (fst (generate_batch generate chunks w))
  = map without_embedding chunks.
Proof.
  revert w. induction chunks as [|c chunks IH]; intro w; cbn [generate_batch].
  - reflexivity.
  - destruct (generate (TextChunk.text c) w) as [embedding w'].
    specialize (IH w').
    destruct (generate_batch generate chunks w') as [rest w''].
    cbn [fst map] in *. rewrite IH. reflexivity.
Qed.

Lemma generate_batch_all_embedded (chunks : list TextChunk.t) (w : W) :
  (forall text w0, fst (generate text w0) <> None) ->
  Forall (fun c => has_embedding c = true)
    (fst (generate_batch generate chunks w)).
Proof.
  intro Hok. revert w.
  induction chunks as [|c chunks IH]; intro w; cbn [generate_batch].
  - constructor.
  - pose proof (Hok (TextChunk.text c) w) as Hc.
    destruct (generate (TextChunk.text c) w) as [embedding w'].
    specialize (IH w').
    destruct (generate_batch generate chunks w') as [rest w''].
    cbn [fst] in *. constructor; [|exact IH].
    unfold has_embedding. cbn. destruct embedding; [reflexivity|contradiction].
Qed.

End EmbedderFacts.

(** What the pipeline hands on.  Every chunk it returns has an embedding;
    apart from the embedding the chunks are chunks of the chunker, in the
    chunker's order, with the ordinal and the count the chunker gave them;
    a chunk whose embedding failed is left out without a trace; and when no
    embedding fails, every chunk of every document is returned. *)
Theorem process_returns_the_embedded_chunks :
  forall (W : Type) (generate : string -> W -> option (list Q) * W)
         (chunker : TextChunker) (contents : list CleanedContent.t) (w : W),
    let out := fst (process generate chunker contents w) in
    Forall (fun c => TextChunk.embedding c <> None) out
    /\ subsequence (map without_embedding out)
         (flat_map (chunk chunker) contents)
    /\ ((forall text w0, fst (generate text w0) <> None) ->
        map without_embedding out = flat_map (chunk chunker) contents).
Proof.
  intros W generate chunker contents w out. subst out. unfold process.
  pose proof (generate_batch_keeps_chunks generate
                (flat_map (chunk chunker) contents) w) as Hkeep.
  pose proof (generate_batch_all_embedded generate
                (flat_map (chunk chunker) contents) w) as Hall.
  destruct (generate_batch generate (flat_map (chunk chunker) contents) w)
    as [embedded w'].
  cbn [fst] in *. rewrite chunks_without_embedding in Hkeep.
  split; [|split].
  - apply Forall_forall. intros c Hc. apply filter_In in Hc.
    destruct Hc as [_ Hc]. unfold has_embedding in Hc.
    destruct (TextChunk.embedding c); [discriminate|discriminate Hc].
  - rewrite <- Hkeep. apply subsequence_filter.
  - intro Hok. rewrite (filter_all _ _ (Hall Hok)). exact Hkeep.
Qed.

(** An embedder that always answers. *)
Lemma process_witness :
  (forall (text : string) (w0 : unit),
      fst (always_embeds text w0) <> None)
  /\ map without_embedding
       (fst (process always_embeds small_chunker [note rainy_text] tt))
     = flat_map (chunk small_chunker) [note rainy_text].
Proof.
  assert (H : forall (text : string) (w0 : unit),
             fst (always_embeds text w0) <> None) by (intros; discriminate).
  split; [exact H|].
  exact (proj2 (proj2 (process_returns_the_embedded_chunks unit always_embeds
                         small_chunker [note rainy_text] tt)) H).
Defined.

End PipelineFacts.
